(** * Guided ramjet projectile: planar flight simulation (main_simulation.py)

    A shallow embedding of [main_simulation.py] over the real numbers.
    Python floats are idealised as elements of [R]; the numpy and scipy
    primitives the program calls ([np.linalg.norm], [np.arctan2], [np.clip],
    [np.radians], [interp1d]) are given their mathematical meaning.
    The methods of [Projectile] mutate [self] in place, so they are written
    in a small state monad over the projectile. *)

From Stdlib Require Import Reals Lra Lia List Bool Sorted Permutation.
Import ListNotations.

Open Scope R_scope.

(** ** numpy arrays of three floats *)

Record Vec3 : Type := mkVec3 { c0 : R; c1 : R; c2 : R }.

(** [v[i]] for the literal indices the program uses. *)
Definition getitem (v : Vec3) (i : nat) : R :=
  match i with
  | O => c0 v
  | S O => c1 v
  | _ => c2 v
  end.

(** [v[i] = r], in place. *)
Definition setitem (v : Vec3) (i : nat) (r : R) : Vec3 :=
  match i with
  | O => mkVec3 r (c1 v) (c2 v)
  | S O => mkVec3 (c0 v) r (c2 v)
  | _ => mkVec3 (c0 v) (c1 v) r
  end.

(** [a - b] on arrays: a fresh array, component by component. *)
Definition vsub (a b : Vec3) : Vec3 :=
  mkVec3 (c0 a - c0 b) (c1 a - c1 b) (c2 a - c2 b).

(** [np.linalg.norm]: the Euclidean norm of all three components. *)
Definition norm (v : Vec3) : R :=
  sqrt (c0 v * c0 v + c1 v * c1 v + c2 v * c2 v).

(** [np.arctan2 y x]: the angle of the point [(x, y)], in (-PI, PI]. *)
Definition arctan2 (y x : R) : R :=
  if Rlt_dec 0 x then atan (y / x)
  else if Rlt_dec x 0 then
    if Rle_dec 0 y then atan (y / x) + PI else atan (y / x) - PI
  else if Rlt_dec 0 y then PI / 2
  else if Rlt_dec y 0 then - (PI / 2)
  else 0.

(** [np.radians]. *)
Definition radians (deg : R) : R := deg * (PI / 180).

(** [np.clip a lo hi] is [minimum (maximum a lo) hi]. *)
Definition clip (a lo hi : R) : R := Rmin (Rmax a lo) hi.

(** ** 1. Configuration and constants *)

Module Config.

Record t : Type := mk {
  dt : R;
  max_time : R;
  g : R;
  mass : R;
  diameter : R;
  area : R;
  target_pos : Vec3
}.

(** The class attributes of [Config] as the program sets them. *)
Definition default : t :=
  {| dt := 0.01;
     max_time := 100;
     g := 9.81;
     mass := 43.5;
     diameter := 0.155;
     area := PI * (0.155 / 2) ^ 2;
     target_pos := mkVec3 15000 500 0 |}.

End Config.

(** ** 2. Aerodynamic database *)

(** What [np.genfromtxt(filepath, delimiter=',', skip_header=1)] hands back:
    either it raises (the file is missing or unreadable, the rows have
    different numbers of columns), or it returns the parsed data rows. *)
Inductive genfromtxt_result : Type :=
| Raised
| Loaded (data : list (list R)).

Fixpoint all_some {A : Type} (l : list (option A)) : option (list A) :=
  match l with
  | [] => Some []
  | None :: _ => None
  | Some a :: l' =>
      match all_some l' with
      | Some r => Some (a :: r)
      | None => None
      end
  end.

(** [data[:, k]].  With fewer than two data rows numpy's array is
    one-dimensional and the two-index slice raises [IndexError]; so does a
    column index past the row width. *)
Definition column (k : nat) (data : list (list R)) : option (list R) :=
  if (length data <? 2)%nat then None
  else all_some (map (fun row => nth_error row k) data).

(** *** scipy's [interp1d(x, y, kind='linear', fill_value="extrapolate")] *)

(** The samples are sorted by abscissa first (a stable [argsort]). *)
Fixpoint insert_sample (p : R * R) (l : list (R * R)) : list (R * R) :=
  match l with
  | [] => [p]
  | q :: l' =>
      if Rle_dec (fst p) (fst q) then p :: q :: l'
      else q :: insert_sample p l'
  end.

Definition sort_samples (l : list (R * R)) : list (R * R) :=
  fold_right insert_sample [] l.

(** [np.searchsorted a v] (side left) on a sorted array: the first index
    whose entry is not below [v]. *)
Fixpoint searchsorted (a : list R) (v : R) : nat :=
  match a with
  | [] => O
  | x :: a' => if Rlt_dec x v then S (searchsorted a' v) else O
  end.

(** The evaluation of the linear interpolant: the segment index is clipped
    into [1, n-1], and no bounds check follows since the fill value is
    "extrapolate".  Where the two abscissas of the chosen segment coincide
    the floating-point division yields an infinity or a NaN, which [R] does
    not hold: this definition stands for the program only where they
    differ, and the properties below assume that they do. *)
Definition call_linear (pts : list (R * R)) (x_new : R) : R :=
  let x := map fst pts in
  let y := map snd pts in
  let i := Nat.min (Nat.max (searchsorted x x_new) 1) (length x - 1) in
  let lo := (i - 1)%nat in
  let hi := i in
  let x_lo := nth lo x 0 in
  let x_hi := nth hi x 0 in
  let y_lo := nth lo y 0 in
  let y_hi := nth hi y 0 in
  let slope := (y_hi - y_lo) / (x_hi - x_lo) in
  slope * (x_new - x_lo) + y_lo.

(** The constructor raises [ValueError] when the two arrays differ in
    length. *)
Definition interp1d (x y : list R) : option (R -> R) :=
  if (length x =? length y)%nat
  then Some (call_linear (sort_samples (combine x y)))
  else None.

(** Samples in ascending order of abscissa. *)
Definition ascending (pts : list (R * R)) : Prop :=
  StronglySorted (fun p q => fst p <= fst q) pts.

(** Samples in strictly ascending order of abscissa. *)
Definition strictly_ascending (pts : list (R * R)) : Prop :=
  StronglySorted (fun p q => fst p < fst q) pts.

(** The table's samples of column [k] against the Mach column, one per
    row, as the two [interp1d] calls receive them. *)
Definition samples (k : nat) (data : list (list R)) : list (R * R) :=
  map (fun row => (nth 0 row 0, nth k row 0)) data.

(** The straight line through two samples [p] and [q], evaluated at [x]:
    the linear extension of the segment from [p] to [q]. *)
Definition line_through (p q : R * R) (x : R) : R :=
  (snd q - snd p) / (fst q - fst p) * (x - fst p) + snd p.

(** [f] is a linear extension of the segment from [p] to [q]: a straight
    line that passes through both samples. *)
Definition linear_extension (p q : R * R) (f : R -> R) : Prop :=
  (exists a b, forall x, f x = a * x + b) /\
  f (fst p) = snd p /\
  f (fst q) = snd q.

(** The rows of a parsed table all have one width, as [np.genfromtxt]
    returns them. *)
Definition rectangular (data : list (list R)) : Prop :=
  exists w : nat, Forall (fun row => length row = w) data.

Module AeroDatabase.

Record t : Type := mk {
  cd_curve : R -> R;
  cl_curve : R -> R
}.

(** The body of the [try] block: [None] stands for any exception. *)
Definition load (src : genfromtxt_result) : option t :=
  match src with
  | Raised => None
  | Loaded data =>
      match column 0 data, column 2 data, column 3 data with
      | Some m, Some cd, Some cl =>
          match interp1d m cd, interp1d m cl with
          | Some f, Some h => Some (mk f h)
          | _, _ => None
          end
      | _, _, _ => None
      end
  end.

(** [__init__]: the [except] branch installs the constant curves. *)
Definition init (src : genfromtxt_result) : t :=
  match load src with
  | Some db => db
  | None => mk (fun _ => 0.67) (fun _ => 2.0)
  end.

Definition get_cd (self : t) (mach : R) : R := cd_curve self mach.

Definition get_cl_alpha (self : t) (mach : R) : R := cl_curve self mach.

End AeroDatabase.

(** ** 3. The physics engine *)

Module Projectile.

Record t : Type := mk {
  pos : Vec3;
  vel : Vec3;
  quat : R * R * R * R;
  aero : AeroDatabase.t
}.

(** [__init__]: 2 km altitude, Mach 2 along the downrange axis, identity
    quaternion [x, y, z, w], and the database read from the table. *)
Definition init (src : genfromtxt_result) : t :=
  {| pos := mkVec3 0 2000 0;
     vel := mkVec3 680 0 0;
     quat := (0, 0, 0, 1);
     aero := AeroDatabase.init src |}.

(** *** Methods as state transformers over [self] *)

Definition M (A : Type) : Type := t -> A * t.

Definition ret {A : Type} (a : A) : M A := fun s => (a, s).

Definition bind {A B : Type} (m : M A) (k : A -> M B) : M B :=
  fun s => let (a, s') := m s in k a s'.

Declare Scope proj_scope.
Delimit Scope proj_scope with proj.
Notation "x <- m ;; k" := (bind m (fun x => k))
  (at level 61, m at next level, right associativity) : proj_scope.
Notation "m ;;; k" := (bind m (fun _ => k))
  (at level 61, right associativity) : proj_scope.
Local Open Scope proj_scope.

(** Reads of [self.pos], [self.vel], [self.aero]. *)
Definition self_pos : M Vec3 := fun s => (pos s, s).
Definition self_vel : M Vec3 := fun s => (vel s, s).
Definition self_aero : M AeroDatabase.t := fun s => (aero s, s).

(** [self.vel[i] += d] and [self.pos[i] += d]: in-place writes of one
    component. *)
Definition iadd_vel (i : nat) (d : R) : M unit :=
  fun s => (tt, mk (pos s) (setitem (vel s) i (getitem (vel s) i + d))
                   (quat s) (aero s)).

Definition iadd_pos (i : nat) (d : R) : M unit :=
  fun s => (tt, mk (setitem (pos s) i (getitem (pos s) i + d)) (vel s)
                   (quat s) (aero s)).

(** The local variables each lettered block of [update] computes. *)
Record Atmosphere : Type := mkAtmosphere {
  h : R; rho : R; speed : R; mach : R }.

Record Guidance : Type := mkGuidance {
  los_angle : R; vel_angle : R; alpha_cmd : R }.

Record Forces : Type := mkForces {
  Cd : R; Cl : R; q : R; F_drag : R; F_lift : R }.

Record Inertial : Type := mkInertial {
  gamma : R; fx_aero : R; fy_aero : R }.

(** A. Atmosphere model (lines 66-69). *)
Definition atmosphere : M Atmosphere :=
  p <- self_pos ;;
  let h := getitem p 1 in
  let rho := 1.225 * exp (- h / 8500.0) in
  v <- self_vel ;;
  let speed := norm v in
  let mach := speed / 340.0 in
  ret (mkAtmosphere h rho speed mach).

(** B. Guidance: proportional navigation (lines 76-88). *)
Definition guidance (target_pos : Vec3) : M Guidance :=
  p <- self_pos ;;
  let r_tm := vsub target_pos p in
  let los_angle := arctan2 (getitem r_tm 1) (getitem r_tm 0) in
  v <- self_vel ;;
  let vel_angle := arctan2 (getitem v 1) (getitem v 0) in
  let N := 3.0 in
  let alpha_cmd := N * (los_angle - vel_angle) in
  let alpha_cmd := clip alpha_cmd (- radians 10) (radians 10) in
  ret (mkGuidance los_angle vel_angle alpha_cmd).

(** C. Forces in the body frame (lines 92-103). *)
Definition forces (cfg : Config.t) (atm : Atmosphere) (gd : Guidance)
  : M Forces :=
  db <- self_aero ;;
  let Cd := AeroDatabase.get_cd db (mach atm) in
  let Cl_slope := AeroDatabase.get_cl_alpha db (mach atm) in
  let Cl := Cl_slope * alpha_cmd gd in
  let q := 0.5 * rho atm * speed atm ^ 2 * Config.area cfg in
  let F_drag := q * Cd in
  let F_lift := q * Cl in
  ret (mkForces Cd Cl q F_drag F_lift).

(** D. Transformation to the inertial frame (lines 108-115). *)
Definition transformations (f : Forces) : M Inertial :=
  v <- self_vel ;;
  let gamma := arctan2 (getitem v 1) (getitem v 0) in
  let fx_aero := - F_drag f * cos gamma - F_lift f * sin gamma in
  let fy_aero := - F_drag f * sin gamma + F_lift f * cos gamma in
  ret (mkInertial gamma fx_aero fy_aero).

(** E. Integration of the equation of motion (lines 119-126).  Each
    [self.vel[i]] on a right-hand side is read when its statement runs. *)
Definition integration (cfg : Config.t) (dt : R) (f : Inertial) : M unit :=
  let ax := fx_aero f / Config.mass cfg in
  let ay := (fy_aero f / Config.mass cfg) - Config.g cfg in
  iadd_vel 0 (ax * dt) ;;;
  iadd_vel 1 (ay * dt) ;;;
  v <- self_vel ;;
  iadd_pos 0 (getitem v 0 * dt) ;;;
  v <- self_vel ;;
  iadd_pos 1 (getitem v 1 * dt).

(** [update(self, dt, target_pos)]; [Config] is the global the method
    reads its mass, area and gravity from. *)
Definition update (cfg : Config.t) (dt : R) (target_pos : Vec3) : M bool :=
  atm <- atmosphere ;;
  if Rlt_dec (h atm) 0 then ret false
  else
    gd <- guidance target_pos ;;
    f <- forces cfg atm gd ;;
    fi <- transformations f ;;
    integration cfg dt fi ;;;
    ret true.

End Projectile.

(** ** 4. The simulation loop *)

(** [history]: the three lists the loop appends to. *)
Record History : Type := mkHistory {
  hist_x : list R;
  hist_y : list R;
  hist_mach : list R
}.

(** The variables of [run_simulation] that the loop reads and writes. *)
Record Sim : Type := mkSim {
  t : R;
  missile : Projectile.t;
  history : History
}.

(** What one evaluation of the [while] header, and of the body when it is
    entered, does: the body ran to its end, it left through [break], or the
    header test failed. *)
Inductive Step : Type :=
| Continue (st : Sim)
| Break (st : Sim)
| Exhausted (st : Sim).

Definition record_data (m : Projectile.t) (hist : History) : History :=
  let speed := norm (Projectile.vel m) in
  mkHistory (hist_x hist ++ [getitem (Projectile.pos m) 0])
            (hist_y hist ++ [getitem (Projectile.pos m) 1])
            (hist_mach hist ++ [speed / 340.0]).

Definition while_step (config : Config.t) (st : Sim) : Step :=
  if Rlt_dec (t st) (Config.max_time config) then
    let (flying, m) :=
      Projectile.update config (Config.dt config) (Config.target_pos config)
        (missile st) in
    if negb flying then Break (mkSim (t st) m (history st))
    else Continue (mkSim (t st + Config.dt config) m
                         (record_data m (history st)))
  else Exhausted st.

(** How the loop was left. *)
Inductive Exit : Type := Impact | Timeout.

(** The outcome of a run: the results of the calls to [update] in call
    order, the way out of the loop, and the final variables. *)
Record Run : Type := mkRun {
  calls : list bool;
  exit : Exit;
  final : Sim
}.

(** The [while] loop, bounded by [fuel] header evaluations; [None] when the
    bound is too small. *)
Fixpoint run_loop (fuel : nat) (config : Config.t) (st : Sim) : option Run :=
  match fuel with
  | O => None
  | S fuel' =>
      match while_step config st with
      | Exhausted st' => Some (mkRun [] Timeout st')
      | Break st' => Some (mkRun [false] Impact st')
      | Continue st' =>
          match run_loop fuel' config st' with
          | Some r => Some (mkRun (true :: calls r) (exit r) (final r))
          | None => None
          end
      end
  end.

(** The loop on a given configuration and projectile, from [t = 0] and an
    empty history. *)
Definition run_from (fuel : nat) (config : Config.t) (m : Projectile.t)
  : option Run :=
  run_loop fuel config (mkSim 0 m (mkHistory [] [] [])).

(** [run_simulation()]: the projectile and the configuration are the
    program's own; the table file is the only input. *)
Definition run_simulation (fuel : nat) (src : genfromtxt_result)
  : option History :=
  match run_from fuel Config.default (Projectile.init src) with
  | Some r => Some (history (final r))
  | None => None
  end.

(** The projectile after [n] calls to [update]. *)
Fixpoint flight (config : Config.t) (m : Projectile.t) (n : nat)
  : Projectile.t :=
  match n with
  | O => m
  | S n' =>
      snd (Projectile.update config (Config.dt config)
             (Config.target_pos config) (flight config m n'))
  end.

(** The result of the call to [update] number [n] (from 0). *)
Definition flying_at (config : Config.t) (m : Projectile.t) (n : nat) : bool :=
  fst (Projectile.update config (Config.dt config) (Config.target_pos config)
         (flight config m n)).

(** Histories appended list by list. *)
Definition hist_app (a b : History) : History :=
  mkHistory (hist_x a ++ hist_x b) (hist_y a ++ hist_y b)
            (hist_mach a ++ hist_mach b).

(** The samples the loop has recorded after [n] calls that returned true:
    sample [k] is read off the projectile as call [k] left it. *)
Definition trajectory (config : Config.t) (m : Projectile.t) (n : nat)
  : History :=
  let after k := flight config m k in
  mkHistory
    (map (fun k => getitem (Projectile.pos (after k)) 0) (seq 1 n))
    (map (fun k => getitem (Projectile.pos (after k)) 1) (seq 1 n))
    (map (fun k => norm (Projectile.vel (after k)) / 340.0) (seq 1 n)).

(** Two projectiles the dynamics cannot tell apart: the same position and
    velocity, and coefficient curves that agree at every Mach number. *)
Definition same_inputs (m m' : Projectile.t) : Prop :=
  Projectile.pos m = Projectile.pos m' /\
  Projectile.vel m = Projectile.vel m' /\
  (forall x, AeroDatabase.cd_curve (Projectile.aero m) x
             = AeroDatabase.cd_curve (Projectile.aero m') x) /\
  (forall x, AeroDatabase.cl_curve (Projectile.aero m) x
             = AeroDatabase.cl_curve (Projectile.aero m') x).

Module ProjectileTrace.
Import Projectile.
Local Open Scope proj_scope.

(** The locals of blocks A to D along one pass through the body of
    [update], in statement order. *)
Record Locals : Type := mkLocals {
  atm : Atmosphere;
  gd : Guidance;
  frc : Forces;
  inr : Inertial
}.

Definition update_locals (cfg : Config.t) (target_pos : Vec3) : M Locals :=
  a <- atmosphere ;;
  g <- guidance target_pos ;;
  f <- forces cfg a g ;;
  fi <- transformations f ;;
  ret (mkLocals a g f fi).

(** The accelerations block E integrates. *)
Definition ax (cfg : Config.t) (l : Locals) : R :=
  fx_aero (inr l) / Config.mass cfg.

Definition ay (cfg : Config.t) (l : Locals) : R :=
  fy_aero (inr l) / Config.mass cfg - Config.g cfg.

End ProjectileTrace.

(** * Properties *)

Section UpdateFacts.

Import Projectile ProjectileTrace.

Variables (cfg : Config.t) (dt : R) (target_pos : Vec3).

(** Blocks A to D only read [self]. *)
Lemma atmosphere_reads (s : Projectile.t) : snd (atmosphere s) = s.
Proof. reflexivity. Qed.

Lemma guidance_reads (s : Projectile.t) : snd (guidance target_pos s) = s.
Proof. reflexivity. Qed.

Lemma forces_reads (a : Atmosphere) (g : Guidance) (s : Projectile.t) :
  snd (forces cfg a g s) = s.
Proof. reflexivity. Qed.

Lemma transformations_reads (f : Forces) (s : Projectile.t) :
  snd (transformations f s) = s.
Proof. reflexivity. Qed.

Lemma update_locals_reads (s : Projectile.t) :
  snd (update_locals cfg target_pos s) = s.
Proof. reflexivity. Qed.

(** The altitude test of [update] reads the second position component. *)
Lemma atmosphere_h (s : Projectile.t) :
  h (fst (atmosphere s)) = getitem (pos s) 1.
Proof. reflexivity. Qed.

(** A call below ground returns at once. *)
Lemma update_crashed (s : Projectile.t) :
  getitem (pos s) 1 < 0 -> update cfg dt target_pos s = (false, s).
Proof.
  intros Hh. unfold update, bind. cbn [atmosphere bind self_pos self_vel ret].
  cbn [h]. destruct (Rlt_dec (getitem (pos s) 1) 0) as [_ | Hn].
  - reflexivity.
  - contradiction.
Qed.

(** Any other call runs blocks B to E on the locals and returns true. *)
Lemma update_flying (s : Projectile.t) :
  ~ getitem (pos s) 1 < 0 ->
  update cfg dt target_pos s =
    (true,
     snd (integration cfg dt (inr (fst (update_locals cfg target_pos s))) s)).
Proof.
  intros Hh. unfold update, bind. cbn [atmosphere bind self_pos self_vel ret].
  cbn [h]. destruct (Rlt_dec (getitem (pos s) 1) 0) as [Hlt | _].
  - contradiction.
  - reflexivity.
Qed.

Lemma update_true_iff (s : Projectile.t) :
  fst (update cfg dt target_pos s) = true <-> ~ getitem (pos s) 1 < 0.
Proof.
  split.
  - intros Hf Hlt. rewrite (update_crashed s Hlt) in Hf. discriminate.
  - intros Hn. rewrite (update_flying s Hn). reflexivity.
Qed.

(** What block E leaves in [self], component by component. *)
Lemma integration_state (f : Inertial) (s : Projectile.t) :
  let a0 := fx_aero f / Config.mass cfg in
  let a1 := fy_aero f / Config.mass cfg - Config.g cfg in
  let v0 := c0 (vel s) + a0 * dt in
  let v1 := c1 (vel s) + a1 * dt in
  snd (integration cfg dt f s) =
    Projectile.mk
      (mkVec3 (c0 (pos s) + v0 * dt) (c1 (pos s) + v1 * dt) (c2 (pos s)))
      (mkVec3 v0 v1 (c2 (vel s)))
      (quat s) (aero s).
Proof. reflexivity. Qed.

End UpdateFacts.

Section Integration.

Import Projectile ProjectileTrace.

Lemma arctan2_level (x : R) : 0 < x -> arctan2 0 x = 0.
Proof.
  intros Hx. unfold arctan2. destruct (Rlt_dec 0 x) as [_ | Hn].
  - unfold Rdiv. rewrite Rmult_0_l. apply atan_0.
  - contradiction.
Qed.

(** C1 (as amended): in a call to [update] that returns true, the velocity
    is advanced by [a * dt] on the horizontal and vertical axes, and the
    position is advanced by the velocity this same step has just written
    (the new one) times [dt]. *)
Theorem update_euler_uses_new_velocity
    (cfg : Config.t) (dt : R) (target_pos : Vec3) (s : Projectile.t) :
  fst (update cfg dt target_pos s) = true ->
  let s' := snd (update cfg dt target_pos s) in
  let l := fst (update_locals cfg target_pos s) in
  getitem (vel s') 0 = getitem (vel s) 0 + ax cfg l * dt /\
  getitem (vel s') 1 = getitem (vel s) 1 + ay cfg l * dt /\
  getitem (pos s') 0 = getitem (pos s) 0 + getitem (vel s') 0 * dt /\
  getitem (pos s') 1 = getitem (pos s) 1 + getitem (vel s') 1 * dt.
Proof.
  intros Hf. apply update_true_iff in Hf.
  rewrite (update_flying cfg dt target_pos s Hf).
  cbn [snd]. rewrite integration_state. cbn [pos vel getitem c0 c1].
  unfold ax, ay. repeat split; reflexivity.
Qed.

(** The first step of the program's own run, on the fallback curves. *)
Lemma first_step_flying :
  fst (update Config.default 0.01 (Config.target_pos Config.default)
         (Projectile.init Raised)) = true.
Proof. apply update_true_iff. cbn. lra. Qed.

Lemma first_step_decelerates :
  ax Config.default
     (fst (update_locals Config.default
             (Config.target_pos Config.default) (Projectile.init Raised)))
  < 0.
Proof.
  cbv [ax update_locals bind atmosphere guidance forces transformations
       self_pos self_vel self_aero ret fst snd inr fx_aero F_drag F_lift
       Projectile.init pos vel aero getitem c0 c1 c2 mach speed rho
       alpha_cmd Config.mass Config.area Config.default AeroDatabase.init
       AeroDatabase.load AeroDatabase.get_cd AeroDatabase.get_cl_alpha
       AeroDatabase.cd_curve AeroDatabase.cl_curve].
  rewrite arctan2_level by lra. rewrite cos_0, sin_0.
  unfold norm. cbn [c0 c1 c2].
  rewrite pow2_sqrt by lra.
  pose proof PI_RGT_0 as Hpi.
  match goal with
  | |- context [exp ?x] => pose proof (exp_pos x) as He; set (e := exp x) in *
  end.
  assert (Hq : 0 < 0.5 * (1.225 * e) * (680 * 680 + 0 * 0 + 0 * 0)
                    * (PI * (0.155 / 2) ^ 2)).
  { assert (Hp2 : 0 < (0.155 / 2) ^ 2) by (apply pow_lt; lra).
    apply Rmult_lt_0_compat; [apply Rmult_lt_0_compat; lra |].
    apply Rmult_lt_0_compat; lra. }
  set (q := 0.5 * (1.225 * e) * (680 * 680 + 0 * 0 + 0 * 0)
              * (PI * (0.155 / 2) ^ 2)) in *.
  match goal with
  | |- (_ - q * (2.0 * ?k) * 0) / _ < 0 => generalize k
  end.
  intros c.
  assert (Hm : 0 < / 43.5) by (apply Rinv_0_lt_compat; lra).
  assert (Hnum : - (q * 0.67) * 1 - q * (2.0 * c) * 0 < 0) by lra.
  unfold Rdiv. nra.
Qed.

(** C1 (as stated) fails on the first step of the program's own run: the
    call returns true, and the downrange position does not advance by the
    velocity from before the call. *)
Lemma update_euler_old_velocity_counterexample :
  let s := Projectile.init Raised in
  let tp := Config.target_pos Config.default in
  let s' := snd (update Config.default 0.01 tp s) in
  fst (update Config.default 0.01 tp s) = true /\
  getitem (pos s') 0 <> getitem (pos s) 0 + getitem (vel s) 0 * 0.01.
Proof.
  intros s tp s'. split; [exact first_step_flying |].
  assert (Hn : ~ getitem (pos s) 1 < 0) by (cbn; lra).
  unfold s'. rewrite (update_flying Config.default 0.01 tp s Hn).
  cbn [snd]. rewrite integration_state. cbn [pos getitem c0].
  pose proof first_step_decelerates as Ha. fold tp s in Ha.
  unfold ax in Ha. cbn [Config.mass Config.default] in *.
  set (a := fx_aero (inr (fst (update_locals Config.default tp s))) / 43.5)
    in *.
  cbn [s Projectile.init pos vel getitem c0]. nra.
Qed.

End Integration.

Section Termination.

Import Projectile.

Lemma update_false_below
    (cfg : Config.t) (dt : R) (target_pos : Vec3) (s : Projectile.t) :
  fst (update cfg dt target_pos s) = false ->
  getitem (pos s) 1 < 0 /\ snd (update cfg dt target_pos s) = s.
Proof.
  intros Hf. destruct (Rlt_dec (getitem (pos s) 1) 0) as [Hlt | Hge].
  - rewrite (update_crashed cfg dt target_pos s Hlt). auto.
  - rewrite (update_flying cfg dt target_pos s Hge) in Hf. discriminate.
Qed.

(** C2: a call to [update] returns false exactly when the altitude at the
    start of the call is below zero, and then leaves the projectile as it
    was; every other call returns true. *)
Theorem update_false_iff_below_ground
    (cfg : Config.t) (dt : R) (target_pos : Vec3) (s : Projectile.t) :
  (fst (update cfg dt target_pos s) = false <-> getitem (pos s) 1 < 0) /\
  (fst (update cfg dt target_pos s) = false ->
     snd (update cfg dt target_pos s) = s) /\
  (~ getitem (pos s) 1 < 0 -> fst (update cfg dt target_pos s) = true).
Proof.
  destruct (Rlt_dec (getitem (pos s) 1) 0) as [Hlt | Hge].
  - rewrite (update_crashed cfg dt target_pos s Hlt). cbn [fst snd].
    repeat split; intros; auto; contradiction.
  - rewrite (update_flying cfg dt target_pos s Hge). cbn [fst snd].
    repeat split; intros; auto; try discriminate; contradiction.
Qed.

(** C10: no call to [update] touches the third component of the position
    or of the velocity, nor the quaternion (nor the database). *)
Theorem update_planar
    (cfg : Config.t) (dt : R) (target_pos : Vec3) (s : Projectile.t) :
  let s' := snd (update cfg dt target_pos s) in
  getitem (pos s') 2 = getitem (pos s) 2 /\
  getitem (vel s') 2 = getitem (vel s) 2 /\
  quat s' = quat s /\
  aero s' = aero s.
Proof.
  destruct (Rlt_dec (getitem (pos s) 1) 0) as [Hlt | Hge].
  - rewrite (update_crashed cfg dt target_pos s Hlt). cbn [snd]. auto.
  - rewrite (update_flying cfg dt target_pos s Hge). cbn [snd].
    rewrite integration_state. cbn. auto.
Qed.

End Termination.

Section Guidance.

Import Projectile ProjectileTrace.

Lemma PI_bounds : 3.1415 < PI < 3.1417.
Proof.
  pose proof (PI_2_3_7_ineq 2) as [Hlo Hhi].
  unfold sum_f_R0, tg_alt, PI_2_3_7_tg, Ratan_seq in Hlo, Hhi.
  cbn [Nat.mul Nat.add pow INR] in Hlo, Hhi.
  split; lra.
Qed.

Lemma radians_10_bounds : 0.1745 < radians 10 < 0.1746.
Proof. unfold radians. pose proof PI_bounds. lra. Qed.

Lemma clip_spec (a lo hi : R) :
  lo <= hi ->
  lo <= clip a lo hi <= hi /\
  (hi < a -> clip a lo hi = hi) /\
  (a < lo -> clip a lo hi = lo) /\
  (lo <= a <= hi -> clip a lo hi = a).
Proof.
  intros Hb. unfold clip, Rmin, Rmax.
  destruct (Rle_dec a lo) as [H1 | H1];
    [destruct (Rle_dec lo hi) | destruct (Rle_dec a hi)];
    repeat split; intros; lra.
Qed.

(** C5: the angle of attack block C multiplies the lift slope by is
    [3 * (los_angle - vel_angle)] clipped to plus or minus [radians 10]
    (about 0.1745 rad): it never exceeds the bound in absolute value, it
    sits exactly on the bound whenever the raw product lies beyond it, and
    a call that returns true integrates the force computed from it. *)
Theorem guidance_alpha_clamped
    (cfg : Config.t) (dt : R) (target_pos : Vec3) (s : Projectile.t) :
  let l := fst (update_locals cfg target_pos s) in
  let raw := 3.0 * (los_angle (gd l) - vel_angle (gd l)) in
  los_angle (gd l) =
    arctan2 (getitem target_pos 1 - getitem (pos s) 1)
            (getitem target_pos 0 - getitem (pos s) 0) /\
  vel_angle (gd l) = arctan2 (getitem (vel s) 1) (getitem (vel s) 0) /\
  alpha_cmd (gd l) = clip raw (- radians 10) (radians 10) /\
  Rabs (alpha_cmd (gd l)) <= radians 10 /\
  (radians 10 < raw -> alpha_cmd (gd l) = radians 10) /\
  (raw < - radians 10 -> alpha_cmd (gd l) = - radians 10) /\
  (- radians 10 <= raw <= radians 10 -> alpha_cmd (gd l) = raw) /\
  0.1745 < radians 10 < 0.1746 /\
  Cl (frc l) =
    AeroDatabase.get_cl_alpha (aero s) (mach (atm l)) * alpha_cmd (gd l) /\
  F_lift (frc l) = q (frc l) * Cl (frc l) /\
  (fst (update cfg dt target_pos s) = true ->
     snd (update cfg dt target_pos s) = snd (integration cfg dt (inr l) s)).
Proof.
  intros l raw.
  pose proof radians_10_bounds as Hr.
  assert (Hb : - radians 10 <= radians 10) by lra.
  destruct (clip_spec raw (- radians 10) (radians 10) Hb)
    as (Hin & Hhi & Hlo & Hmid).
  split; [reflexivity |]. split; [reflexivity |].
  split; [reflexivity |].
  change (alpha_cmd (gd l)) with (clip raw (- radians 10) (radians 10)).
  split; [apply Rabs_le; lra |].
  split; [exact Hhi |]. split; [exact Hlo |]. split; [exact Hmid |].
  split; [exact Hr |]. split; [reflexivity |]. split; [reflexivity |].
  intros Hf. apply update_true_iff in Hf.
  rewrite (update_flying cfg dt target_pos s Hf). reflexivity.
Qed.

(** C6: in a call that returns true the force resolved on the inertial
    axes is [Fx = - Fdrag cos g - Flift sin g] and
    [Fy = - Fdrag sin g + Flift cos g], with [g] the flight-path angle of
    the velocity at the start of the call, [Fdrag = q Cd],
    [Flift = q Cl] and [q = 0.5 rho |vel|^2 area]; this is the force the
    step divides by the mass and integrates. *)
Theorem update_force_resolution
    (cfg : Config.t) (dt : R) (target_pos : Vec3) (s : Projectile.t) :
  fst (update cfg dt target_pos s) = true ->
  let s' := snd (update cfg dt target_pos s) in
  let l := fst (update_locals cfg target_pos s) in
  let g := arctan2 (getitem (vel s) 1) (getitem (vel s) 0) in
  let rho := 1.225 * exp (- getitem (pos s) 1 / 8500.0) in
  let M := norm (vel s) / 340.0 in
  let qd := 0.5 * rho * norm (vel s) ^ 2 * Config.area cfg in
  let Fdrag := qd * AeroDatabase.get_cd (aero s) M in
  let Flift :=
    qd * (AeroDatabase.get_cl_alpha (aero s) M * alpha_cmd (gd l)) in
  let Fx := - Fdrag * cos g - Flift * sin g in
  let Fy := - Fdrag * sin g + Flift * cos g in
  fx_aero (inr l) = Fx /\
  fy_aero (inr l) = Fy /\
  getitem (vel s') 0 = getitem (vel s) 0 + Fx / Config.mass cfg * dt /\
  getitem (vel s') 1 =
    getitem (vel s) 1 + (Fy / Config.mass cfg - Config.g cfg) * dt.
Proof.
  intros Hf. apply update_true_iff in Hf.
  rewrite (update_flying cfg dt target_pos s Hf).
  cbn [snd]. rewrite integration_state. cbn [vel getitem c0 c1].
  repeat split; reflexivity.
Qed.

(** C7: along one pass through [update], the flight-path angle of the
    guidance block and the [gamma] of the transformation block are the same
    number, the angle of the velocity the call started with: the blocks in
    between leave [self.vel] as it was. *)
Theorem flight_path_angle_agrees
    (cfg : Config.t) (target_pos : Vec3) (s : Projectile.t) :
  let l := fst (update_locals cfg target_pos s) in
  vel_angle (gd l) = gamma (inr l) /\
  gamma (inr l) = arctan2 (getitem (vel s) 1) (getitem (vel s) 0) /\
  vel (snd (guidance target_pos s)) = vel s /\
  vel (snd (forces cfg (atm l) (gd l) (snd (guidance target_pos s))))
    = vel s.
Proof. repeat split; reflexivity. Qed.

End Guidance.

Section AeroTable.

(** *** Columns of a loaded table *)

Lemma all_some_nth {k : nat} (data : list (list R)) (l : list R) :
  all_some (map (fun row => nth_error row k) data) = Some l ->
  l = map (fun row => nth k row 0) data.
Proof.
  revert l. induction data as [| row data IH]; intros l Hl; cbn in Hl.
  - now inversion Hl.
  - destruct (nth_error row k) as [a |] eqn:Ha; [| discriminate].
    destruct (all_some (map (fun r => nth_error r k) data)) as [l' |];
      [| discriminate].
    inversion Hl; subst l. cbn. f_equal.
    + symmetry. now apply nth_error_nth.
    + now apply IH.
Qed.

Lemma all_some_none {k : nat} (data : list (list R)) :
  all_some (map (fun row => nth_error row k) data) = None <->
  exists row, In row data /\ (length row <= k)%nat.
Proof.
  induction data as [| row data IH]; cbn.
  - split; [discriminate | intros (r & [] & _)].
  - destruct (nth_error row k) as [a |] eqn:Ha.
    + assert (Hk : (k < length row)%nat).
      { apply nth_error_Some. rewrite Ha. discriminate. }
      destruct (all_some (map (fun r => nth_error r k) data)) as [l' |].
      * split; [discriminate |].
        intros (r & [<- | Hin] & Hr); [lia |].
        assert (Hex : exists row, In row data /\ (length row <= k)%nat)
          by (now exists r).
        apply IH in Hex. discriminate.
      * split; [| reflexivity]. intros _.
        destruct (proj1 IH eq_refl) as (r & Hin & Hr).
        exists r. auto.
    + split; [| reflexivity]. intros _. exists row.
      split; [now left | now apply nth_error_None].
Qed.

Lemma column_some (k : nat) (data : list (list R)) (l : list R) :
  column k data = Some l ->
  (2 <= length data)%nat /\ l = map (fun row => nth k row 0) data.
Proof.
  unfold column. destruct (Nat.ltb_spec (length data) 2) as [Hlt | Hge].
  - discriminate.
  - intros Hl. split; [exact Hge | now apply all_some_nth].
Qed.

Lemma column_none (k : nat) (data : list (list R)) :
  column k data = None <->
  (length data < 2)%nat \/ exists row, In row data /\ (length row <= k)%nat.
Proof.
  unfold column. destruct (Nat.ltb_spec (length data) 2) as [Hlt | Hge].
  - split; [now left | reflexivity].
  - rewrite all_some_none. split; [now right | intros [Hlt | H]; [lia | exact H]].
Qed.

Lemma interp1d_columns (j k : nat) (data : list (list R)) :
  interp1d (map (fun row => nth j row 0) data)
           (map (fun row => nth k row 0) data)
  = Some (call_linear
            (sort_samples
               (combine (map (fun row => nth j row 0) data)
                        (map (fun row => nth k row 0) data)))).
Proof.
  unfold interp1d. rewrite !length_map, Nat.eqb_refl. reflexivity.
Qed.

Lemma combine_columns (k : nat) (data : list (list R)) :
  combine (map (fun row => nth 0 row 0) data)
          (map (fun row => nth k row 0) data) = samples k data.
Proof.
  unfold samples. induction data as [| row data IH]; cbn; [reflexivity |].
  now rewrite IH.
Qed.

(** A table loads exactly when it has two rows or more, each of four
    columns or more; the curves are then the interpolants of the sorted
    samples. *)
Lemma load_some (data : list (list R)) (db : AeroDatabase.t) :
  AeroDatabase.load (Loaded data) = Some db ->
  (2 <= length data)%nat /\
  db = AeroDatabase.mk (call_linear (sort_samples (samples 2 data)))
                       (call_linear (sort_samples (samples 3 data))).
Proof.
  cbn [AeroDatabase.load].
  destruct (column 0 data) as [m |] eqn:H0; [| discriminate].
  destruct (column 2 data) as [cd |] eqn:H2; [| discriminate].
  destruct (column 3 data) as [cl |] eqn:H3; [| discriminate].
  apply column_some in H0, H2, H3.
  destruct H0 as [Hn ->], H2 as [_ ->], H3 as [_ ->].
  rewrite !interp1d_columns, !combine_columns.
  intros Hdb. inversion Hdb. split; [exact Hn | reflexivity].
Qed.

Lemma load_none (src : genfromtxt_result) :
  AeroDatabase.load src = None <->
  src = Raised \/
  exists data, src = Loaded data /\
    ((length data < 2)%nat \/
     exists row, In row data /\ (length row < 4)%nat).
Proof.
  destruct src as [| data]; cbn [AeroDatabase.load].
  - split; [now left | reflexivity].
  - split.
    + intros Hl. right. exists data. split; [reflexivity |].
      destruct (column 0 data) as [m |] eqn:H0.
      2:{ apply column_none in H0.
          destruct H0 as [Hlt | (r & Hin & Hr)]; [now left |].
          right. exists r. split; [exact Hin | lia]. }
      destruct (column 2 data) as [cd |] eqn:H2.
      2:{ apply column_none in H2.
          destruct H2 as [Hlt | (r & Hin & Hr)]; [now left |].
          right. exists r. split; [exact Hin | lia]. }
      destruct (column 3 data) as [cl |] eqn:H3.
      2:{ apply column_none in H3.
          destruct H3 as [Hlt | (r & Hin & Hr)]; [now left |].
          right. exists r. split; [exact Hin | lia]. }
      apply column_some in H0, H2, H3.
      destruct H0 as [Hn ->], H2 as [_ ->], H3 as [_ ->].
      rewrite !interp1d_columns in Hl. discriminate.
    + intros [Hr | (d & Hd & Hbad)]; [discriminate |].
      inversion Hd; subst d.
      assert (H3 : column 3 data = None).
      { apply column_none. destruct Hbad as [Hlt | (r & Hin & Hr)];
          [now left |]. right. exists r. split; [exact Hin | lia]. }
      rewrite H3.
      destruct (column 0 data); [| reflexivity].
      destruct (column 2 data); reflexivity.
Qed.

(** C3: when the [try] block of the constructor fails, the constructor
    still returns a database, and its two getters are the constants 0.67
    and 2.0 at every Mach number, zero and negative ones included. *)
Theorem fallback_constants (src : genfromtxt_result) (mach : R) :
  AeroDatabase.load src = None ->
  AeroDatabase.get_cd (AeroDatabase.init src) mach = 0.67 /\
  AeroDatabase.get_cl_alpha (AeroDatabase.init src) mach = 2.0.
Proof.
  intros Hl. unfold AeroDatabase.init. rewrite Hl. split; reflexivity.
Qed.

End AeroTable.

Section Interpolation.

(** *** The sort in front of the interpolant *)

Lemma insert_sample_perm (p : R * R) (l : list (R * R)) :
  Permutation (insert_sample p l) (p :: l).
Proof.
  induction l as [| q l IH]; cbn.
  - apply Permutation_refl.
  - destruct (Rle_dec (fst p) (fst q)).
    + apply Permutation_refl.
    + eapply perm_trans; [apply perm_skip, IH | apply perm_swap].
Qed.

Lemma sort_samples_perm (l : list (R * R)) :
  Permutation (sort_samples l) l.
Proof.
  induction l as [| p l IH]; cbn.
  - apply perm_nil.
  - eapply perm_trans; [apply insert_sample_perm | now apply perm_skip].
Qed.

Lemma sort_samples_length (l : list (R * R)) :
  length (sort_samples l) = length l.
Proof. apply Permutation_length, sort_samples_perm. Qed.

Lemma sort_samples_In (p : R * R) (l : list (R * R)) :
  In p (sort_samples l) <-> In p l.
Proof.
  split; apply Permutation_in;
    [| apply Permutation_sym]; apply sort_samples_perm.
Qed.

Lemma insert_sample_ascending (p : R * R) (l : list (R * R)) :
  ascending l -> ascending (insert_sample p l).
Proof.
  unfold ascending. induction l as [| q l IH]; intros Hs; cbn.
  - constructor; constructor.
  - inversion Hs as [| ? ? Hl Hq]; subst.
    destruct (Rle_dec (fst p) (fst q)) as [Hle | Hgt].
    + constructor; [exact Hs |]. constructor; [exact Hle |].
      rewrite Forall_forall in Hq |- *. intros r Hr.
      specialize (Hq r Hr). lra.
    + constructor; [now apply IH |].
      rewrite Forall_forall in Hq |- *. intros r Hr.
      apply (Permutation_in _ (insert_sample_perm p l)) in Hr.
      destruct Hr as [<- | Hr]; [lra | now apply Hq].
Qed.

Lemma sort_samples_ascending (l : list (R * R)) :
  ascending (sort_samples l).
Proof.
  induction l as [| p l IH]; cbn.
  - constructor.
  - now apply insert_sample_ascending.
Qed.

(** *** The segment the evaluation picks outside the samples *)

Lemma searchsorted_left (a : list R) (v : R) :
  (forall x, In x a -> v < x) -> searchsorted a v = O.
Proof.
  destruct a as [| x a]; intros Ha; cbn; [reflexivity |].
  destruct (Rlt_dec x v) as [Hlt | _]; [| reflexivity].
  specialize (Ha x (or_introl eq_refl)). lra.
Qed.

Lemma searchsorted_right (a : list R) (v : R) :
  (forall x, In x a -> x < v) -> searchsorted a v = length a.
Proof.
  induction a as [| x a IH]; intros Ha; cbn; [reflexivity |].
  destruct (Rlt_dec x v) as [_ | Hn].
  - f_equal. apply IH. intros y Hy. apply Ha. now right.
  - exfalso. apply Hn, Ha. now left.
Qed.

Lemma nth_map_fst (i : nat) (pts : list (R * R)) :
  nth i (map fst pts) 0 = fst (nth i pts (0, 0)).
Proof. exact (map_nth fst pts (0, 0) i). Qed.

Lemma nth_map_snd (i : nat) (pts : list (R * R)) :
  nth i (map snd pts) 0 = snd (nth i pts (0, 0)).
Proof. exact (map_nth snd pts (0, 0) i). Qed.

Lemma call_linear_segment (pts : list (R * R)) (x_new : R) (i : nat) :
  Nat.min (Nat.max (searchsorted (map fst pts) x_new) 1) (length pts - 1)
    = i ->
  call_linear pts x_new =
    line_through (nth (i - 1) pts (0, 0)) (nth i pts (0, 0)) x_new.
Proof.
  intros Hi. unfold call_linear, line_through.
  rewrite length_map, Hi.
  now rewrite !nth_map_fst, !nth_map_snd.
Qed.

Lemma call_linear_below (pts : list (R * R)) (x_new : R) :
  (2 <= length pts)%nat ->
  (forall p, In p pts -> x_new < fst p) ->
  call_linear pts x_new =
    line_through (nth 0 pts (0, 0)) (nth 1 pts (0, 0)) x_new.
Proof.
  intros Hn Hlo. apply (call_linear_segment pts x_new 1).
  rewrite searchsorted_left.
  - lia.
  - intros x Hx. apply in_map_iff in Hx. destruct Hx as (p & <- & Hp).
    now apply Hlo.
Qed.

Lemma call_linear_above (pts : list (R * R)) (x_new : R) :
  (2 <= length pts)%nat ->
  (forall p, In p pts -> fst p < x_new) ->
  call_linear pts x_new =
    line_through (nth (length pts - 2) pts (0, 0))
                 (nth (length pts - 1) pts (0, 0)) x_new.
Proof.
  intros Hn Hhi.
  replace (length pts - 2)%nat with (length pts - 1 - 1)%nat by lia.
  apply (call_linear_segment pts x_new (length pts - 1)).
  rewrite searchsorted_right.
  - rewrite length_map. lia.
  - intros x Hx. apply in_map_iff in Hx. destruct Hx as (p & <- & Hp).
    now apply Hhi.
Qed.

Lemma samples_In (k : nat) (data : list (list R)) (p : R * R) :
  In p (samples k data) ->
  exists row, In row data /\ fst p = nth 0 row 0.
Proof.
  unfold samples. intros Hp. apply in_map_iff in Hp.
  destruct Hp as (row & <- & Hrow). now exists row.
Qed.

(** The line through two samples with different abscissas passes through
    both of them. *)
Lemma line_through_samples (p q : R * R) :
  line_through p q (fst p) = snd p /\
  (fst p <> fst q -> line_through p q (fst q) = snd q).
Proof.
  unfold line_through. split.
  - rewrite Rminus_diag. lra.
  - intros Hne. field. lra.
Qed.

Lemma line_through_extension (p q : R * R) :
  fst p <> fst q -> linear_extension p q (line_through p q).
Proof.
  intros Hne. destruct (line_through_samples p q) as [Hp Hq].
  split; [| split; [exact Hp | exact (Hq Hne)]].
  exists ((snd q - snd p) / (fst q - fst p)),
         (snd p - (snd q - snd p) / (fst q - fst p) * fst p).
  intros x. unfold line_through. ring.
Qed.

(** The order the sort puts the abscissas in depends on the abscissas
    alone. *)
Lemma insert_sample_keys (p p' : R * R) (l l' : list (R * R)) :
  fst p = fst p' -> map fst l = map fst l' ->
  map fst (insert_sample p l) = map fst (insert_sample p' l').
Proof.
  intros Hp. revert l'. induction l as [| q l IH]; intros [| q' l'] Hl;
    try discriminate.
  - cbn. now rewrite Hp.
  - cbn [map] in Hl. injection Hl as Hq Hl. cbn [insert_sample].
    destruct (Rle_dec (fst p) (fst q)) as [H1 | H1],
             (Rle_dec (fst p') (fst q')) as [H2 | H2]; cbn [map].
    + now rewrite Hp, Hq, Hl.
    + exfalso. apply H2. rewrite <- Hp, <- Hq. exact H1.
    + exfalso. apply H1. rewrite Hp, Hq. exact H2.
    + rewrite Hq. f_equal. now apply IH.
Qed.

Lemma sort_samples_keys (l l' : list (R * R)) :
  map fst l = map fst l' ->
  map fst (sort_samples l) = map fst (sort_samples l').
Proof.
  revert l'. induction l as [| p l IH]; intros [| p' l'] Hl;
    try discriminate; [reflexivity |].
  cbn [map] in Hl. injection Hl as Hp Hl. cbn [sort_samples fold_right].
  apply insert_sample_keys; [exact Hp | now apply IH].
Qed.

Lemma sorted_mach_agree (j k i : nat) (data : list (list R)) :
  fst (nth i (sort_samples (samples j data)) (0, 0))
  = fst (nth i (sort_samples (samples k data)) (0, 0)).
Proof.
  rewrite <- !nth_map_fst. f_equal. apply sort_samples_keys.
  unfold samples. rewrite !map_map. reflexivity.
Qed.

(** C4 (as amended): on a table that loaded, the two getters are the
    interpolants of the samples sorted by Mach.  At a Mach number below
    every sample, when the two lowest sorted Mach numbers differ, they
    return the value of the straight line through the first two sorted
    samples; above every sample, when the two highest differ, that of the
    line through the last two: the boundary segment extended, neither a
    clamped end value nor a failure.  Nothing restricts the sign of the
    Mach number. *)
Theorem interpolants_extrapolate
    (data : list (list R)) (db : AeroDatabase.t) (mach : R) :
  AeroDatabase.load (Loaded data) = Some db ->
  let n := length data in
  let cds := sort_samples (samples 2 data) in
  let cls := sort_samples (samples 3 data) in
  let first l := (nth 0 l (0, 0), nth 1 l (0, 0)) in
  let last l := (nth (n - 2) l (0, 0), nth (n - 1) l (0, 0)) in
  let extends (seg : (R * R) * (R * R)) (v : R) :=
    linear_extension (fst seg) (snd seg) (line_through (fst seg) (snd seg)) /\
    v = line_through (fst seg) (snd seg) mach in
  (Permutation cds (samples 2 data) /\ ascending cds) /\
  (Permutation cls (samples 3 data) /\ ascending cls) /\
  ((forall row, In row data -> mach < nth 0 row 0) ->
   fst (fst (first cds)) <> fst (snd (first cds)) ->
     extends (first cds) (AeroDatabase.get_cd db mach) /\
     extends (first cls) (AeroDatabase.get_cl_alpha db mach)) /\
  ((forall row, In row data -> nth 0 row 0 < mach) ->
   fst (fst (last cds)) <> fst (snd (last cds)) ->
     extends (last cds) (AeroDatabase.get_cd db mach) /\
     extends (last cls) (AeroDatabase.get_cl_alpha db mach)).
Proof.
  intros Hl n cds cls first last extends.
  apply load_some in Hl. destruct Hl as [Hn ->].
  unfold AeroDatabase.get_cd, AeroDatabase.get_cl_alpha.
  cbn [AeroDatabase.cd_curve AeroDatabase.cl_curve].
  subst cds cls first last extends. cbn [fst snd].
  assert (Hlen : forall k, length (sort_samples (samples k data)) = n).
  { intros k. rewrite sort_samples_length. unfold samples.
    now rewrite length_map. }
  assert (Hmach : forall k p, In p (sort_samples (samples k data)) ->
                    exists row, In row data /\ fst p = nth 0 row 0).
  { intros k p Hp. apply (proj1 (sort_samples_In _ _)) in Hp.
    now apply samples_In in Hp. }
  split; [split; [apply sort_samples_perm | apply sort_samples_ascending] |].
  split; [split; [apply sort_samples_perm | apply sort_samples_ascending] |].
  split.
  - intros Hlo Hne.
    assert (Hne' : fst (nth 0 (sort_samples (samples 3 data)) (0, 0))
                   <> fst (nth 1 (sort_samples (samples 3 data)) (0, 0))).
    { now rewrite !(sorted_mach_agree 3 2). }
    split; (split; [now apply line_through_extension |]);
      apply call_linear_below;
      try (rewrite Hlen; exact Hn);
      intros p Hp; apply Hmach in Hp; destruct Hp as (row & Hrow & ->);
      now apply Hlo.
  - intros Hhi Hne.
    assert (Hne' : fst (nth (n - 2) (sort_samples (samples 3 data)) (0, 0))
                   <> fst (nth (n - 1) (sort_samples (samples 3 data)) (0, 0))).
    { now rewrite !(sorted_mach_agree 3 2). }
    split; (split; [now apply line_through_extension |]).
    + rewrite <- (Hlen 2%nat). apply call_linear_above;
        [rewrite Hlen; exact Hn |].
      intros p Hp; apply Hmach in Hp; destruct Hp as (row & Hrow & ->);
        now apply Hhi.
    + rewrite <- (Hlen 3%nat). apply call_linear_above;
        [rewrite Hlen; exact Hn |].
      intros p Hp; apply Hmach in Hp; destruct Hp as (row & Hrow & ->);
        now apply Hhi.
Qed.

(** C4 (as stated) fails on a table that loads and repeats its lowest Mach
    number with two drag values: Mach 0.5 lies below every sample, the first
    two sorted samples stand one above the other, the slope of the segment
    divides by zero, and no straight line passes through both, so there is
    no linear extension for the getter to return. *)
Lemma interpolants_repeated_mach_counterexample :
  let data := [[1.0; 0; 0.3; 2.0]; [1.0; 5; 0.5; 2.5]; [2.0; 0; 0.4; 3.0]] in
  let cds := sort_samples (samples 2 data) in
  (exists db, AeroDatabase.load (Loaded data) = Some db) /\
  (forall row, In row data -> 0.5 < nth 0 row 0) /\
  nth 0 cds (0, 0) = (1.0, 0.3) /\
  nth 1 cds (0, 0) = (1.0, 0.5) /\
  fst (nth 1 cds (0, 0)) - fst (nth 0 cds (0, 0)) = 0 /\
  ~ exists f, linear_extension (nth 0 cds (0, 0)) (nth 1 cds (0, 0)) f.
Proof.
  intros data cds.
  assert (Hs : cds = [(1.0, 0.3); (1.0, 0.5); (2.0, 0.4)]).
  { unfold cds, data.
    cbn [samples map nth sort_samples fold_right insert_sample fst].
    destruct (Rle_dec 1.0 2.0) as [_ | Hn]; [| exfalso; lra].
    cbn [insert_sample fst].
    destruct (Rle_dec 1.0 1.0) as [_ | Hn]; [| exfalso; lra].
    reflexivity. }
  rewrite Hs. cbn [nth fst snd].
  split; [eexists; reflexivity |].
  split; [intros row [<- | [<- | [<- | []]]]; cbn; lra |].
  split; [reflexivity |]. split; [reflexivity |]. split; [lra |].
  intros (f & (a & b & Hf) & H0 & H1). cbn [fst snd] in H0, H1.
  rewrite Hf in H0, H1. lra.
Qed.

End Interpolation.

Section Loop.

Variable config : Config.t.

Let step (m : Projectile.t) : bool * Projectile.t :=
  Projectile.update config (Config.dt config) (Config.target_pos config) m.

(** *** One evaluation of the loop header and body *)

Lemma while_step_exhausted (st : Sim) :
  ~ t st < Config.max_time config -> while_step config st = Exhausted st.
Proof.
  intros Ht. unfold while_step.
  destruct (Rlt_dec (t st) (Config.max_time config)); [contradiction |].
  reflexivity.
Qed.

Lemma while_step_break (st : Sim) :
  t st < Config.max_time config ->
  fst (step (missile st)) = false ->
  while_step config st = Break st.
Proof.
  intros Ht Hf. unfold while_step.
  destruct (Rlt_dec (t st) (Config.max_time config)); [| contradiction].
  destruct (update_false_below config (Config.dt config)
              (Config.target_pos config) (missile st) Hf) as [_ Hs].
  fold (step (missile st)) in Hs |- *.
  destruct (step (missile st)) as [b m]. cbn in Hf, Hs. subst b m.
  cbn. now destruct st.
Qed.

Lemma while_step_continue (st : Sim) :
  t st < Config.max_time config ->
  fst (step (missile st)) = true ->
  while_step config st =
    Continue (mkSim (t st + Config.dt config) (snd (step (missile st)))
                    (record_data (snd (step (missile st))) (history st))).
Proof.
  intros Ht Hf. unfold while_step.
  destruct (Rlt_dec (t st) (Config.max_time config)); [| contradiction].
  fold (step (missile st)).
  destruct (step (missile st)) as [b m]. cbn in Hf. subst b.
  reflexivity.
Qed.

(** *** The projectile and the history along the loop *)

Lemma flight_shift (m : Projectile.t) (n : nat) :
  flight config (snd (step m)) n = flight config m (S n).
Proof.
  induction n as [| n IH]; [reflexivity |].
  cbn [flight]. rewrite IH. reflexivity.
Qed.

Lemma trajectory_shift (m : Projectile.t) (hist : History) (n : nat) :
  hist_app (record_data (snd (step m)) hist)
           (trajectory config (snd (step m)) n)
  = hist_app hist (trajectory config m (S n)).
Proof.
  unfold hist_app, trajectory, record_data. cbn [hist_x hist_y hist_mach].
  cbn [seq map]. rewrite <- !seq_shift, !map_map.
  rewrite <- !app_assoc. cbn [app flight].
  f_equal; f_equal; f_equal; apply map_ext; intros k;
    now rewrite flight_shift.
Qed.

Lemma hist_app_empty (a : History) :
  hist_app (mkHistory [] [] []) a = a.
Proof. now destruct a. Qed.

Lemma hist_app_start (a : History) (m : Projectile.t) :
  hist_app a (trajectory config m 0) = a.
Proof.
  destruct a. unfold hist_app, trajectory. cbn. now rewrite !app_nil_r.
Qed.

(** What a finished run of the loop from [st] looks like, with [n] the
    number of passes through the whole body. *)
Lemma run_loop_trace (fuel : nat) (st : Sim) (r : Run) :
  run_loop fuel config st = Some r ->
  exists n : nat,
    calls r = repeat true n ++
              match exit r with Impact => [false] | Timeout => [] end /\
    t (final r) = t st + INR n * Config.dt config /\
    missile (final r) = flight config (missile st) n /\
    history (final r) =
      hist_app (history st) (trajectory config (missile st) n) /\
    (forall k, (k < n)%nat ->
       t st + INR k * Config.dt config < Config.max_time config /\
       flying_at config (missile st) k = true) /\
    match exit r with
    | Impact =>
        t st + INR n * Config.dt config < Config.max_time config /\
        flying_at config (missile st) n = false
    | Timeout =>
        Config.max_time config <= t st + INR n * Config.dt config
    end.
Proof.
  revert st r. induction fuel as [| fuel IH]; intros st r Hr;
    [discriminate |].
  cbn [run_loop] in Hr.
  destruct (Rlt_dec (t st) (Config.max_time config)) as [Ht | Ht].
  - destruct (fst (step (missile st))) eqn:Hf.
    + rewrite (while_step_continue st Ht Hf) in Hr.
      destruct (run_loop fuel config _) as [r' |] eqn:Hr'; [| discriminate].
      inversion Hr; subst r; clear Hr. cbn [calls exit final].
      destruct (IH _ _ Hr') as (n & Hc & Htn & Hm & Hh & Hk & He).
      cbn [t missile history] in Hc, Htn, Hm, Hh, Hk, He.
      exists (S n). rewrite S_INR.
      split; [cbn [repeat app]; now rewrite Hc |].
      split; [rewrite Htn; lra |].
      split; [rewrite Hm; apply flight_shift |].
      split; [rewrite Hh; apply trajectory_shift |].
      split.
      * intros [| k] Hlt.
        -- cbn [INR]. split; [lra | exact Hf].
        -- destruct (Hk k ltac:(lia)) as [Hkt Hkf].
           rewrite S_INR. split; [lra |].
           unfold flying_at in Hkf |- *. now rewrite <- flight_shift.
      * destruct (exit r').
        -- destruct He as [Het Hef]. split; [lra |].
           unfold flying_at in Hef |- *. now rewrite <- flight_shift.
        -- lra.
    + rewrite (while_step_break st Ht Hf) in Hr.
      inversion Hr; subst r; clear Hr. cbn [calls exit final].
      exists O. cbn [repeat app INR flight].
      split; [reflexivity |]. split; [lra |]. split; [reflexivity |].
      split; [symmetry; apply hist_app_start |].
      split; [intros k Hk; lia |].
      split; [lra | exact Hf].
  - rewrite (while_step_exhausted st Ht) in Hr.
    inversion Hr; subst r; clear Hr. cbn [calls exit final].
    exists O. cbn [repeat app INR flight].
    split; [reflexivity |]. split; [lra |]. split; [reflexivity |].
    split; [symmetry; apply hist_app_start |].
    split; [intros k Hk; lia |]. lra.
Qed.

Lemma run_loop_S (fuel : nat) (st : Sim) :
  run_loop (S fuel) config st =
    match while_step config st with
    | Exhausted st' => Some (mkRun [] Timeout st')
    | Break st' => Some (mkRun [false] Impact st')
    | Continue st' =>
        match run_loop fuel config st' with
        | Some r => Some (mkRun (true :: calls r) (exit r) (final r))
        | None => None
        end
    end.
Proof. reflexivity. Qed.

(** With a positive time step the loop ends: once [N] steps cover what is
    left of the time budget, [S N] header evaluations are enough. *)
Lemma run_loop_ends (N : nat) (st : Sim) :
  Config.max_time config - t st <= INR N * Config.dt config ->
  0 < Config.dt config ->
  exists r, run_loop (S N) config st = Some r.
Proof.
  intros Hb Hdt. revert st Hb. induction N as [| N IH]; intros st Hb.
  - cbn [INR] in Hb. cbn [run_loop].
    rewrite while_step_exhausted by lra. eauto.
  - rewrite run_loop_S.
    destruct (Rlt_dec (t st) (Config.max_time config)) as [Ht | Ht].
    + destruct (fst (step (missile st))) eqn:Hf.
      * rewrite (while_step_continue st Ht Hf).
        rewrite S_INR in Hb.
        destruct (IH (mkSim (t st + Config.dt config)
                        (snd (step (missile st)))
                        (record_data (snd (step (missile st)))
                           (history st)))) as [r Hr].
        { cbn [t]. lra. }
        rewrite Hr. eauto.
      * rewrite (while_step_break st Ht Hf). eauto.
    + rewrite (while_step_exhausted st Ht). eauto.
Qed.

(** *** Runs on inputs the dynamics cannot tell apart *)

Lemma update_same_inputs (m m' : Projectile.t) :
  same_inputs m m' ->
  fst (step m) = fst (step m') /\
  same_inputs (snd (step m)) (snd (step m')).
Proof.
  destruct m as [p v qt a], m' as [p' v' qt' a'].
  unfold same_inputs. cbn [Projectile.pos Projectile.vel Projectile.aero].
  intros (<- & <- & Hcd & Hcl). unfold step.
  destruct (Rlt_dec (getitem p 1) 0) as [Hlt | Hge].
  - rewrite !update_crashed by exact Hlt. cbn. auto.
  - rewrite !update_flying by exact Hge. cbn [fst snd].
    rewrite !integration_state.
    cbn [Projectile.pos Projectile.vel Projectile.aero].
    cbv [ProjectileTrace.update_locals Projectile.bind Projectile.atmosphere
         Projectile.guidance Projectile.forces Projectile.transformations
         Projectile.self_pos Projectile.self_vel Projectile.self_aero
         Projectile.ret fst snd ProjectileTrace.inr Projectile.fx_aero
         Projectile.fy_aero Projectile.F_drag Projectile.F_lift
         Projectile.mach Projectile.speed Projectile.rho
         Projectile.alpha_cmd Projectile.pos Projectile.vel Projectile.aero
         AeroDatabase.get_cd AeroDatabase.get_cl_alpha].
    rewrite !Hcd, !Hcl. auto.
Qed.

Lemma record_data_same_inputs (m m' : Projectile.t) (hist : History) :
  same_inputs m m' -> record_data m hist = record_data m' hist.
Proof.
  intros (Hp & Hv & _). unfold record_data. now rewrite Hp, Hv.
Qed.

Lemma run_loop_same_inputs (fuel fuel' : nat) (st st' : Sim) (r r' : Run) :
  t st = t st' ->
  history st = history st' ->
  same_inputs (missile st) (missile st') ->
  run_loop fuel config st = Some r ->
  run_loop fuel' config st' = Some r' ->
  history (final r) = history (final r') /\
  calls r = calls r' /\
  exit r = exit r'.
Proof.
  revert fuel' st st' r r'.
  induction fuel as [| fuel IH]; intros fuel' st st' r r' Ht Hh Hm Hr Hr';
    [discriminate |].
  destruct fuel' as [| fuel']; [discriminate |].
  rewrite run_loop_S in Hr, Hr'.
  destruct (update_same_inputs _ _ Hm) as [Hf Hs].
  destruct (Rlt_dec (t st) (Config.max_time config)) as [Hlt | Hge].
  - assert (Hlt' : t st' < Config.max_time config) by (rewrite <- Ht; exact Hlt).
    destruct (fst (step (missile st))) eqn:Hb; symmetry in Hf.
    + rewrite (while_step_continue st Hlt Hb) in Hr.
      rewrite (while_step_continue st' Hlt' Hf) in Hr'.
      destruct (run_loop fuel config _) as [r1 |] eqn:H1; [| discriminate].
      destruct (run_loop fuel' config _) as [r1' |] eqn:H1'; [| discriminate].
      inversion Hr; inversion Hr'; subst r r'. cbn [history final calls exit].
      pose proof (fun A B C => IH fuel' _ _ r1 r1' A B C H1 H1') as IH'.
      destruct IH' as (Hh1 & Hc1 & He1).
      * cbn [t]. now rewrite Ht.
      * cbn [history]. rewrite Hh. now apply record_data_same_inputs.
      * exact Hs.
      * now rewrite Hh1, Hc1, He1.
    + rewrite (while_step_break st Hlt Hb) in Hr.
      rewrite (while_step_break st' Hlt' Hf) in Hr'.
      inversion Hr; inversion Hr'; subst r r'. cbn. auto.
  - assert (Hge' : ~ t st' < Config.max_time config) by (rewrite <- Ht; exact Hge).
    rewrite (while_step_exhausted st Hge) in Hr.
    rewrite (while_step_exhausted st' Hge') in Hr'.
    inversion Hr; inversion Hr'; subst r r'. cbn. auto.
Qed.

End Loop.

Section Simulation.

Lemma same_inputs_refl (m : Projectile.t) : same_inputs m m.
Proof. unfold same_inputs. auto. Qed.

Lemma trajectory_length (config : Config.t) (m : Projectile.t) (n : nat) :
  length (hist_x (trajectory config m n)) = n /\
  length (hist_y (trajectory config m n)) = n /\
  length (hist_mach (trajectory config m n)) = n.
Proof.
  unfold trajectory. cbn [hist_x hist_y hist_mach].
  now rewrite !length_map, !length_seq.
Qed.

Lemma steps_cover (a d : R) : 0 < d -> exists N : nat, a <= INR N * d.
Proof.
  intros Hd. destruct (INR_unbounded (a / d)) as [N HN].
  exists N. apply Rlt_le.
  apply (Rmult_lt_compat_r d) in HN; [| exact Hd].
  unfold Rdiv in HN. rewrite Rmult_assoc, Rinv_l, Rmult_1_r in HN; lra.
Qed.

Lemma run_from_ends (config : Config.t) (m : Projectile.t) :
  0 < Config.dt config -> exists fuel r, run_from fuel config m = Some r.
Proof.
  intros Hdt.
  destruct (steps_cover (Config.max_time config) _ Hdt) as [N HN].
  destruct (run_loop_ends config N (mkSim 0 m (mkHistory [] [] [])))
    as [r Hr]; [cbn [t]; lra | exact Hdt |].
  exists (S N), r. exact Hr.
Qed.

(** C9: the loop starts at [t = 0] with an empty history.  With a positive
    time step it ends.  A finished run made [n] calls to [update] that
    returned true, each at a time [k * dt] below the maximum, followed by
    one call that returned false (impact, at a time below the maximum) or
    by none (time out: [n * dt] has reached the maximum); no call follows a
    false return.  The history holds exactly [n] samples, sample [k] read
    off the projectile as call [k] left it. *)
Theorem simulation_loop_trace (config : Config.t) (m : Projectile.t) :
  (0 < Config.dt config ->
     exists fuel r, run_from fuel config m = Some r) /\
  (forall fuel r, run_from fuel config m = Some r ->
     exists n : nat,
       calls r = repeat true n ++
                 match exit r with Impact => [false] | Timeout => [] end /\
       history (final r) = trajectory config m n /\
       (length (hist_x (history (final r))) = n /\
        length (hist_y (history (final r))) = n /\
        length (hist_mach (history (final r))) = n) /\
       t (final r) = INR n * Config.dt config /\
       missile (final r) = flight config m n /\
       (forall k, (k < n)%nat ->
          INR k * Config.dt config < Config.max_time config /\
          flying_at config m k = true) /\
       match exit r with
       | Impact =>
           INR n * Config.dt config < Config.max_time config /\
           flying_at config m n = false /\
           getitem (Projectile.pos (flight config m n)) 1 < 0
       | Timeout =>
           Config.max_time config <= INR n * Config.dt config
       end).
Proof.
  split; [apply run_from_ends |].
  intros fuel r Hr. unfold run_from in Hr.
  destruct (run_loop_trace config fuel _ r Hr)
    as (n & Hc & Ht & Hm & Hh & Hk & He).
  cbn [t missile history] in Ht, Hm, Hh, Hk, He.
  rewrite hist_app_empty in Hh. exists n.
  split; [exact Hc |]. split; [exact Hh |].
  split; [rewrite Hh; apply trajectory_length |].
  split; [rewrite Ht; lra |]. split; [exact Hm |].
  split.
  - intros k Hlt. destruct (Hk k Hlt) as [Hkt Hkf]. split; [lra | exact Hkf].
  - destruct (exit r).
    + destruct He as [Het Hef]. split; [lra |]. split; [exact Hef |].
      unfold flying_at in Hef. now apply update_false_below in Hef.
    + lra.
Qed.

(** C8: two finished runs on the same configuration, from projectiles with
    the same position and velocity and with coefficient curves that agree
    at every Mach number, record the same trajectory, make the same calls
    and leave the loop the same way, whatever bound either run was given. *)
Theorem simulation_deterministic
    (config : Config.t) (m m' : Projectile.t) (fuel fuel' : nat)
    (r r' : Run) :
  same_inputs m m' ->
  run_from fuel config m = Some r ->
  run_from fuel' config m' = Some r' ->
  history (final r) = history (final r') /\
  calls r = calls r' /\
  exit r = exit r'.
Proof.
  intros Hm Hr Hr'. unfold run_from in Hr, Hr'.
  apply (run_loop_same_inputs config fuel fuel'
           (mkSim 0 m (mkHistory [] [] []))
           (mkSim 0 m' (mkHistory [] [] [])) r r');
    [reflexivity | reflexivity | exact Hm | exact Hr | exact Hr'].
Qed.

(** The program itself: the table file is all that a run depends on. *)
Lemma run_simulation_deterministic
    (src : genfromtxt_result) (fuel fuel' : nat) (hist hist' : History) :
  run_simulation fuel src = Some hist ->
  run_simulation fuel' src = Some hist' ->
  hist = hist'.
Proof.
  unfold run_simulation. intros Hr Hr'.
  destruct (run_from fuel _ _) as [r |] eqn:H1; [| discriminate].
  destruct (run_from fuel' _ _) as [r' |] eqn:H2; [| discriminate].
  inversion Hr; inversion Hr'; subst.
  unfold run_from in H1, H2.
  apply (run_loop_same_inputs Config.default fuel fuel'
           (mkSim 0 (Projectile.init src) (mkHistory [] [] []))
           (mkSim 0 (Projectile.init src) (mkHistory [] [] [])) r r');
    [reflexivity | reflexivity | apply same_inputs_refl
    | exact H1 | exact H2].
Qed.

Lemma run_simulation_ends (src : genfromtxt_result) :
  exists fuel hist, run_simulation fuel src = Some hist.
Proof.
  destruct (run_from_ends Config.default (Projectile.init src))
    as (fuel & r & Hr); [cbn; lra |].
  exists fuel, (history (final r)). unfold run_simulation. now rewrite Hr.
Qed.

End Simulation.

(** * The properties on the program's own inputs *)

Section Instances.

Import Projectile ProjectileTrace.

Let launch : Projectile.t := Projectile.init Raised.
Let target : Vec3 := Config.target_pos Config.default.

Lemma arctan2_overhead (y x : R) : x = 0 -> 0 < y -> arctan2 y x = PI / 2.
Proof.
  intros -> Hy. unfold arctan2.
  destruct (Rlt_dec 0 0) as [H0 | _]; [lra |].
  destruct (Rlt_dec 0 y) as [_ | Hn]; [reflexivity | contradiction].
Qed.

(** The first step of the run obeys the integration scheme of C1. *)
Lemma update_euler_at_launch :
  let s' := snd (update Config.default 0.01 target launch) in
  let l := fst (update_locals Config.default target launch) in
  getitem (vel s') 0 = 680 + ax Config.default l * 0.01 /\
  getitem (pos s') 0 = 0 + getitem (vel s') 0 * 0.01.
Proof.
  intros s' l.
  destruct (update_euler_uses_new_velocity Config.default 0.01 target launch)
    as (Hv0 & _ & Hp0 & _).
  - apply update_true_iff. cbn. lra.
  - split; [exact Hv0 | exact Hp0].
Defined.

(** A projectile one metre below ground: the call returns false and
    changes nothing. *)
Lemma update_below_ground_instance :
  let s := Projectile.mk (mkVec3 100 (-1) 0) (mkVec3 680 (-50) 0)
             (0, 0, 0, 1) (AeroDatabase.init Raised) in
  fst (update Config.default 0.01 target s) = false /\
  snd (update Config.default 0.01 target s) = s.
Proof.
  intros s.
  destruct (update_false_iff_below_ground Config.default 0.01 target s)
    as (Hiff & Hsame & _).
  assert (Hf : fst (update Config.default 0.01 target s) = false).
  { apply Hiff. cbn. lra. }
  split; [exact Hf | exact (Hsame Hf)].
Defined.

(** A missing file: the constants at a negative Mach number. *)
Lemma fallback_constants_missing_file :
  AeroDatabase.get_cd (AeroDatabase.init Raised) (-1) = 0.67 /\
  AeroDatabase.get_cl_alpha (AeroDatabase.init Raised) (-1) = 2.0.
Proof. apply (fallback_constants Raised (-1)). reflexivity. Defined.

(** The table with Mach [1.0, 2.0, 3.0] and Cd [0.3, 0.5, 0.4]. *)
Let table3 : list (list R) :=
  [[1.0; 0; 0.3; 2.0]; [2.0; 5; 0.5; 2.5]; [3.0; 10; 0.4; 3.0]].

Lemma table3_sorted :
  sort_samples (samples 2 table3) = [(1.0, 0.3); (2.0, 0.5); (3.0, 0.4)].
Proof.
  cbn [table3 samples map nth sort_samples fold_right insert_sample fst].
  destruct (Rle_dec 2.0 3.0) as [_ | Hn]; [| exfalso; lra].
  cbn [insert_sample fst].
  destruct (Rle_dec 1.0 2.0) as [_ | Hn]; [| exfalso; lra].
  reflexivity.
Qed.

(** Below the table the drag curve continues the first segment, above it
    the last one: 0.2 at Mach 0.5 (not the end value 0.3) and 0.3 at Mach
    4.0 (not the end value 0.4). *)
Lemma interpolants_extrapolate_table3 :
  AeroDatabase.get_cd (AeroDatabase.init (Loaded table3)) 0.5 = 0.2 /\
  AeroDatabase.get_cd (AeroDatabase.init (Loaded table3)) 4.0 = 0.3.
Proof.
  split.
  - pose proof (interpolants_extrapolate table3
                  (AeroDatabase.init (Loaded table3)) 0.5 eq_refl) as H.
    cbv zeta in H. cbn [fst snd] in H. destruct H as (_ & _ & Hlo & _).
    destruct Hlo as [[_ Hcd] _].
    { intros row [<- | [<- | [<- | []]]]; cbn; lra. }
    { rewrite table3_sorted. cbn [nth fst]. lra. }
    rewrite Hcd. rewrite table3_sorted.
    unfold line_through. cbn [nth fst snd]. lra.
  - pose proof (interpolants_extrapolate table3
                  (AeroDatabase.init (Loaded table3)) 4.0 eq_refl) as H.
    cbv zeta in H. cbn [fst snd] in H. destruct H as (_ & _ & _ & Hhi).
    destruct Hhi as [[_ Hcd] _].
    { intros row [<- | [<- | [<- | []]]]; cbn; lra. }
    { rewrite table3_sorted.
      cbn [table3 length Nat.sub nth fst]. lra. }
    rewrite Hcd. rewrite table3_sorted.
    unfold line_through. cbn [table3 length Nat.sub nth fst snd]. lra.
Defined.

(** A target straight above the launch point: the raw command is
    [3 * PI / 2], the applied one is the bound. *)
Lemma guidance_alpha_saturated :
  alpha_cmd (gd (fst (update_locals Config.default (mkVec3 0 3000 0)
                        launch)))
  = radians 10.
Proof.
  destruct (guidance_alpha_clamped Config.default 0.01 (mkVec3 0 3000 0)
              launch) as (Hlos & Hva & _ & _ & Hhi & _).
  apply Hhi. rewrite Hlos, Hva. cbn [launch Projectile.init pos vel getitem
                                     c0 c1].
  rewrite arctan2_overhead by lra. rewrite arctan2_level by lra.
  unfold radians. pose proof PI_RGT_0. lra.
Defined.

(** The force of the first step of the run. *)
Lemma update_force_at_launch :
  let s' := snd (update Config.default 0.01 target launch) in
  let l := fst (update_locals Config.default target launch) in
  getitem (vel s') 0 = 680 + fx_aero (inr l) / 43.5 * 0.01 /\
  getitem (vel s') 1 = 0 + (fy_aero (inr l) / 43.5 - 9.81) * 0.01.
Proof.
  intros s' l.
  destruct (update_force_resolution Config.default 0.01 target launch)
    as (Hfx & Hfy & Hv0 & Hv1).
  - apply update_true_iff. cbn. lra.
  - fold l in Hfx, Hfy. fold s' in Hv0, Hv1.
    rewrite Hfx, Hfy. split; [exact Hv0 | exact Hv1].
Defined.

(** The program's run ends within 10001 header evaluations. *)
Lemma default_run_ends (N : nat) (m : Projectile.t) :
  (100 * 100 <= N)%nat ->
  exists r, run_from (S N) Config.default m = Some r.
Proof.
  intros HN. apply run_loop_ends; simpl; [| lra].
  apply le_INR in HN. rewrite mult_INR in HN.
  replace (INR 100) with 100 in HN by (cbn; lra). lra.
Qed.

(** Two runs of the program, one on a missing table file and one on an
    empty one, with different bounds: the same trajectory. *)
Lemma simulation_deterministic_two_runs :
  exists r r',
    run_from (S (100 * 100)) Config.default (Projectile.init Raised)
      = Some r /\
    run_from (S (S (100 * 100))) Config.default
      (Projectile.init (Loaded [])) = Some r' /\
    history (final r) = history (final r').
Proof.
  destruct (default_run_ends (100 * 100) (Projectile.init Raised))
    as [r Hr]; [lia |].
  destruct (default_run_ends (S (100 * 100)) (Projectile.init (Loaded [])))
    as [r' Hr']; [lia |].
  exists r, r'. split; [exact Hr |]. split; [exact Hr' |].
  apply (simulation_deterministic Config.default
           (Projectile.init Raised) (Projectile.init (Loaded []))
           (S (100 * 100)) (S (S (100 * 100))) r r').
  - unfold same_inputs. cbn. auto.
  - exact Hr.
  - exact Hr'.
Defined.

(** The program's run ends, and its history is a trajectory of the
    launched projectile. *)
Lemma simulation_loop_default_run :
  exists fuel r n,
    run_from fuel Config.default launch = Some r /\
    history (final r) = trajectory Config.default launch n.
Proof.
  destruct (simulation_loop_trace Config.default launch) as [Hends Htrace].
  destruct Hends as (fuel & r & Hr); [cbn; lra |].
  destruct (Htrace fuel r Hr) as (n & _ & Hh & _).
  exists fuel, r, n. split; [exact Hr | exact Hh].
Defined.

End Instances.


(** * Further properties of the aerodynamic table *)

Section TableShape.

Lemma load_rows (data : list (list R)) (db : AeroDatabase.t) :
  AeroDatabase.load (Loaded data) = Some db ->
  Forall (fun row => (4 <= length row)%nat) data.
Proof.
  intros Hl. apply Forall_forall. intros row Hin.
  destruct (Nat.le_gt_cases 4 (length row)) as [Hle | Hlt]; [exact Hle |].
  assert (Hn : AeroDatabase.load (Loaded data) = None).
  { apply load_none. right. exists data. split; [reflexivity |].
    right. now exists row. }
  rewrite Hn in Hl. discriminate.
Qed.

Lemma load_loaded (data : list (list R)) :
  (2 <= length data)%nat ->
  Forall (fun row => (4 <= length row)%nat) data ->
  AeroDatabase.load (Loaded data) =
    Some (AeroDatabase.mk (call_linear (sort_samples (samples 2 data)))
                          (call_linear (sort_samples (samples 3 data)))).
Proof.
  intros Hn Hrows.
  destruct (AeroDatabase.load (Loaded data)) as [db |] eqn:Hl.
  - apply load_some in Hl. destruct Hl as [_ ->]. reflexivity.
  - apply load_none in Hl.
    destruct Hl as [Hr | (d & Hd & [Hlt | (row & Hin & Hrow)])].
    + discriminate.
    + inversion Hd; subst d. lia.
    + inversion Hd; subst d. rewrite Forall_forall in Hrows.
      specialize (Hrows row Hin). lia.
Qed.

(** X1: the constructor keeps a parsed table exactly when it has two data
    rows or more and every row has four columns or more; any other table
    is replaced by the constants. *)
Theorem table_loads_iff (data : list (list R)) :
  (exists db, AeroDatabase.load (Loaded data) = Some db) <->
  ((2 <= length data)%nat /\
   Forall (fun row => (4 <= length row)%nat) data).
Proof.
  split.
  - intros [db Hl]. split.
    + now apply load_some in Hl.
    + now apply load_rows in Hl.
  - intros [Hn Hrows]. eexists. now apply load_loaded.
Qed.

Lemma column_agree (k : nat) (data data' : list (list R)) :
  Forall2 (fun r r' => nth_error r k = nth_error r' k) data data' ->
  column k data = column k data'.
Proof.
  intros Hf. unfold column. rewrite (Forall2_length Hf).
  replace (map (fun row => nth_error row k) data')
    with (map (fun row => nth_error row k) data); [reflexivity |].
  induction Hf as [| r r' l l' Hr _ IH]; cbn; [reflexivity |].
  now rewrite Hr, IH.
Qed.

(** X2: the constructor never reads the angle-of-attack column, nor any
    column past the fourth: two parsed tables, each with rows of one width,
    whose rows agree on the Mach, drag and lift-slope entries give the same
    database. *)
Theorem alpha_column_unused (data data' : list (list R)) :
  rectangular data ->
  rectangular data' ->
  Forall2 (fun r r' => nth_error r 0 = nth_error r' 0 /\
                       nth_error r 2 = nth_error r' 2 /\
                       nth_error r 3 = nth_error r' 3) data data' ->
  AeroDatabase.init (Loaded data) = AeroDatabase.init (Loaded data').
Proof.
  intros _ _ Hf. unfold AeroDatabase.init. cbn [AeroDatabase.load].
  rewrite (column_agree 0 data data'), (column_agree 2 data data'),
    (column_agree 3 data data'); [reflexivity | | |];
    eapply Forall2_impl; try exact Hf; cbn; intros r r' (H0 & H2 & H3);
    assumption.
Qed.

End TableShape.

Section PiecewiseLinear.

Lemma ascending_strict (pts : list (R * R)) :
  ascending pts -> NoDup (map fst pts) -> strictly_ascending pts.
Proof.
  unfold ascending, strictly_ascending. induction pts as [| p pts IH]; intros Hs Hd.
  - constructor.
  - inversion Hs as [| ? ? Hs' Hall]; subst.
    inversion Hd as [| ? ? Hnin Hd']; subst.
    constructor; [now apply IH |].
    rewrite Forall_forall in Hall |- *. intros q Hq.
    specialize (Hall q Hq).
    assert (Hne : fst p <> fst q).
    { intros Heq. apply Hnin. rewrite Heq. now apply in_map. }
    lra.
Qed.

Lemma sort_samples_strict (k : nat) (data : list (list R)) :
  NoDup (map (fun row => nth 0 row 0) data) ->
  strictly_ascending (sort_samples (samples k data)).
Proof.
  intros Hd. apply ascending_strict; [apply sort_samples_ascending |].
  apply (Permutation_NoDup (l := map fst (samples k data))).
  - apply Permutation_map, Permutation_sym, sort_samples_perm.
  - unfold samples. rewrite map_map. cbn [fst]. exact Hd.
Qed.

Lemma strict_abscissas (pts : list (R * R)) :
  strictly_ascending pts -> StronglySorted Rlt (map fst pts).
Proof.
  unfold strictly_ascending. induction 1 as [| p pts Hs IH Hall]; cbn; constructor.
  - exact IH.
  - rewrite Forall_forall in Hall |- *. intros x Hx.
    apply in_map_iff in Hx. destruct Hx as (q & <- & Hq). now apply Hall.
Qed.

(** [searchsorted] on a strictly ascending array. *)
Lemma searchsorted_first (a : list R) (v : R) :
  (forall x, In x a -> v <= x) -> searchsorted a v = O.
Proof.
  destruct a as [| x a]; intros Ha; cbn; [reflexivity |].
  destruct (Rlt_dec x v) as [Hlt | _]; [| reflexivity].
  specialize (Ha x (or_introl eq_refl)). lra.
Qed.

Lemma searchsorted_interval (a : list R) (v : R) (i : nat) :
  StronglySorted Rlt a ->
  (S i < length a)%nat ->
  nth i a 0 < v <= nth (S i) a 0 ->
  searchsorted a v = S i.
Proof.
  intros Hs. revert i. induction Hs as [| x a Hs IH Hall]; intros i Hi Hv.
  - cbn in Hi. lia.
  - cbn [length] in Hi. destruct i as [| i].
    + cbn [nth] in Hv. cbn [searchsorted].
      destruct (Rlt_dec x v) as [_ | Hn]; [| lra]. f_equal.
      destruct a as [| y a]; [cbn in Hi; lia |]. cbn [nth] in Hv.
      cbn [searchsorted]. destruct (Rlt_dec y v); [lra | reflexivity].
    + change (nth (S i) (x :: a) 0) with (nth i a 0) in Hv.
      change (nth (S (S i)) (x :: a) 0) with (nth (S i) a 0) in Hv.
      cbn [searchsorted].
      assert (Hx : x < nth i a 0).
      { rewrite Forall_forall in Hall. apply Hall, nth_In. lia. }
      destruct (Rlt_dec x v) as [_ | Hn]; [| lra].
      f_equal. apply IH; [lia | exact Hv].
Qed.

(** Between two neighbouring samples the interpolant is the line through
    them. *)
Lemma call_linear_interval (pts : list (R * R)) (x_new : R) (i : nat) :
  strictly_ascending pts ->
  (S i < length pts)%nat ->
  fst (nth i pts (0, 0)) < x_new <= fst (nth (S i) pts (0, 0)) ->
  call_linear pts x_new =
    line_through (nth i pts (0, 0)) (nth (S i) pts (0, 0)) x_new.
Proof.
  intros Hs Hi Hv.
  replace i with (S i - 1)%nat at 1 by lia.
  apply call_linear_segment.
  rewrite (searchsorted_interval (map fst pts) x_new i).
  - lia.
  - now apply strict_abscissas.
  - now rewrite length_map.
  - now rewrite !nth_map_fst.
Qed.

Lemma strict_nth_lt (pts : list (R * R)) (i j : nat) :
  strictly_ascending pts -> (i < j)%nat -> (j < length pts)%nat ->
  fst (nth i pts (0, 0)) < fst (nth j pts (0, 0)).
Proof.
  intros Hs. revert i j. induction Hs as [| p pts Hs IH Hall]; intros i j Hij Hj.
  - cbn in Hj. lia.
  - cbn [length] in Hj. destruct j as [| j]; [lia |].
    destruct i as [| i].
    + cbn [nth]. rewrite Forall_forall in Hall. apply Hall, nth_In. lia.
    + cbn [nth]. apply IH; lia.
Qed.

(** At a sample the interpolant returns the sampled value. *)
Lemma call_linear_sample (pts : list (R * R)) (i : nat) :
  strictly_ascending pts ->
  (2 <= length pts)%nat ->
  (i < length pts)%nat ->
  call_linear pts (fst (nth i pts (0, 0))) = snd (nth i pts (0, 0)).
Proof.
  intros Hs Hn Hi. destruct i as [| i].
  - rewrite (call_linear_segment pts _ 1).
    + apply line_through_samples.
    + rewrite searchsorted_first; [lia |].
      intros x Hx. apply in_map_iff in Hx. destruct Hx as (q & <- & Hq).
      destruct (In_nth _ _ (0, 0) Hq) as (j & Hj & <-).
      destruct j as [| j]; [lra |].
      apply Rlt_le, strict_nth_lt; [exact Hs | lia | exact Hj].
  - pose proof (strict_nth_lt pts i (S i) Hs ltac:(lia) Hi) as Hlt.
    rewrite (call_linear_interval pts _ i Hs Hi); [| lra].
    apply line_through_samples. lra.
Qed.

(** X3: on a table that loaded and whose Mach entries are pairwise
    distinct, in whatever row order, each getter returns at the Mach number
    of a row that row's own coefficient. *)
Theorem interpolants_reproduce_table
    (data : list (list R)) (db : AeroDatabase.t) (row : list R) :
  AeroDatabase.load (Loaded data) = Some db ->
  NoDup (map (fun r => nth 0 r 0) data) ->
  In row data ->
  AeroDatabase.get_cd db (nth 0 row 0) = nth 2 row 0 /\
  AeroDatabase.get_cl_alpha db (nth 0 row 0) = nth 3 row 0.
Proof.
  intros Hl Hd Hin. apply load_some in Hl. destruct Hl as [Hn ->].
  unfold AeroDatabase.get_cd, AeroDatabase.get_cl_alpha.
  cbn [AeroDatabase.cd_curve AeroDatabase.cl_curve].
  assert (Hk : forall k,
             call_linear (sort_samples (samples k data)) (nth 0 row 0)
             = nth k row 0).
  { intros k.
    assert (Hp : In (nth 0 row 0, nth k row 0) (sort_samples (samples k data))).
    { apply sort_samples_In. unfold samples.
      apply (in_map (fun r => (nth 0 r 0, nth k r 0))). exact Hin. }
    destruct (In_nth _ _ (0, 0) Hp) as (i & Hi & Hnth).
    pose proof (call_linear_sample (sort_samples (samples k data)) i
                  (sort_samples_strict k data Hd)) as Hs.
    rewrite Hnth in Hs. cbn [fst snd] in Hs. apply Hs; [| exact Hi].
    rewrite sort_samples_length. unfold samples. now rewrite length_map. }
  split; apply Hk.
Qed.

Lemma line_through_between (p q : R * R) (x : R) :
  fst p < x <= fst q ->
  Rmin (snd p) (snd q) <= line_through p q x <= Rmax (snd p) (snd q).
Proof.
  intros Hx. unfold line_through.
  set (w := (x - fst p) / (fst q - fst p)).
  assert (Hw : 0 < w <= 1).
  { unfold w. split.
    - apply Rdiv_lt_0_compat; lra.
    - apply (Rmult_le_reg_r (fst q - fst p)); [lra |].
      unfold Rdiv. rewrite Rmult_assoc, Rinv_l by lra. lra. }
  replace ((snd q - snd p) / (fst q - fst p) * (x - fst p) + snd p)
    with (snd p + w * (snd q - snd p)) by (unfold w; field; lra).
  unfold Rmin, Rmax. destruct (Rle_dec (snd p) (snd q)); split; nra.
Qed.

(** X4: on a table that loaded with pairwise distinct Mach entries, at a
    Mach number between two neighbouring sorted samples the drag getter is
    the line through the two, and its value lies between their two drag
    entries. *)
Theorem interpolant_between_samples
    (data : list (list R)) (db : AeroDatabase.t) (mach : R) (i : nat) :
  AeroDatabase.load (Loaded data) = Some db ->
  NoDup (map (fun r => nth 0 r 0) data) ->
  (S i < length data)%nat ->
  let cds := sort_samples (samples 2 data) in
  let p := nth i cds (0, 0) in
  let q := nth (S i) cds (0, 0) in
  fst p < mach <= fst q ->
  AeroDatabase.get_cd db mach = line_through p q mach /\
  Rmin (snd p) (snd q) <= AeroDatabase.get_cd db mach <= Rmax (snd p) (snd q).
Proof.
  intros Hl Hd Hi cds p q Hm. apply load_some in Hl. destruct Hl as [Hn ->].
  unfold AeroDatabase.get_cd. cbn [AeroDatabase.cd_curve]. fold cds.
  assert (Heq : call_linear cds mach = line_through p q mach).
  { apply call_linear_interval; [apply sort_samples_strict, Hd | | exact Hm].
    unfold cds. rewrite sort_samples_length. unfold samples.
    now rewrite length_map. }
  rewrite Heq. split; [reflexivity | now apply line_through_between].
Qed.

Lemma strict_perm_eq (l l' : list (R * R)) :
  strictly_ascending l -> strictly_ascending l' -> Permutation l l' -> l = l'.
Proof.
  unfold strictly_ascending. intros Hs. revert l'.
  induction Hs as [| a l Hs IH Ha]; intros l' Hs' Hp.
  - apply Permutation_nil in Hp. now subst.
  - destruct Hs' as [| b l' Hs' Hb].
    + apply Permutation_sym, Permutation_nil in Hp. discriminate.
    + assert (Hab : a = b).
      { assert (Hina : In a (b :: l'))
          by (apply (Permutation_in _ Hp); now left).
        assert (Hinb : In b (a :: l))
          by (apply (Permutation_in _ (Permutation_sym Hp)); now left).
        destruct Hina as [Heq | Hina]; [now subst |].
        destruct Hinb as [Heq | Hinb]; [now subst |].
        rewrite Forall_forall in Ha, Hb.
        specialize (Ha b Hinb). specialize (Hb a Hina). lra. }
      subst b. f_equal. apply IH; [exact Hs' |].
      now apply Permutation_cons_inv in Hp.
Qed.

(** X5: the order of the rows in the table file does not matter when the
    Mach entries are pairwise distinct: a table and any rearrangement of its
    rows give the same database. *)
Theorem row_order_irrelevant (data data' : list (list R)) :
  Permutation data data' ->
  NoDup (map (fun r => nth 0 r 0) data) ->
  AeroDatabase.init (Loaded data) = AeroDatabase.init (Loaded data').
Proof.
  intros Hp Hd. unfold AeroDatabase.init.
  assert (Hd' : NoDup (map (fun r => nth 0 r 0) data')).
  { eapply Permutation_NoDup; [apply Permutation_map, Hp | exact Hd]. }
  destruct (AeroDatabase.load (Loaded data)) as [db |] eqn:Hl.
  - pose proof (load_rows data db Hl) as Hrows.
    apply load_some in Hl. destruct Hl as [Hn ->].
    rewrite (load_loaded data').
    + assert (Hk : forall k, sort_samples (samples k data)
                             = sort_samples (samples k data')).
      { intros k. apply strict_perm_eq; try now apply sort_samples_strict.
        eapply perm_trans; [apply sort_samples_perm |].
        eapply perm_trans; [| apply Permutation_sym, sort_samples_perm].
        unfold samples. now apply Permutation_map. }
      now rewrite !Hk.
    + now rewrite <- (Permutation_length Hp).
    + eapply Permutation_Forall; [exact Hp | exact Hrows].
  - assert (Hl' : AeroDatabase.load (Loaded data') = None).
    { apply load_none in Hl. apply load_none. right. exists data'.
      split; [reflexivity |].
      destruct Hl as [Hr | (d & Hd0 & [Hlt | (row & Hin & Hrow)])];
        [discriminate | |]; inversion Hd0; subst d.
      - left. now rewrite <- (Permutation_length Hp).
      - right. exists row. split; [| exact Hrow].
        now apply (Permutation_in _ Hp). }
    now rewrite Hl'.
Qed.

(** X16: the smallest table the constructor keeps, two rows, gives one
    straight line when the two Mach numbers differ: the line passes through
    both samples, and at every Mach number, inside or outside the two
    samples, each getter is on it. *)
Theorem two_row_table_is_one_line
    (r1 r2 : list R) (db : AeroDatabase.t) (mach : R) :
  AeroDatabase.load (Loaded [r1; r2]) = Some db ->
  nth 0 r1 0 <> nth 0 r2 0 ->
  let cds := sort_samples (samples 2 [r1; r2]) in
  let cls := sort_samples (samples 3 [r1; r2]) in
  (linear_extension (nth 0 cds (0, 0)) (nth 1 cds (0, 0))
     (line_through (nth 0 cds (0, 0)) (nth 1 cds (0, 0))) /\
   AeroDatabase.get_cd db mach =
     line_through (nth 0 cds (0, 0)) (nth 1 cds (0, 0)) mach) /\
  (linear_extension (nth 0 cls (0, 0)) (nth 1 cls (0, 0))
     (line_through (nth 0 cls (0, 0)) (nth 1 cls (0, 0))) /\
   AeroDatabase.get_cl_alpha db mach =
     line_through (nth 0 cls (0, 0)) (nth 1 cls (0, 0)) mach).
Proof.
  intros Hl Hne cds cls. apply load_some in Hl. destruct Hl as [_ ->].
  unfold AeroDatabase.get_cd, AeroDatabase.get_cl_alpha.
  cbn [AeroDatabase.cd_curve AeroDatabase.cl_curve]. fold cds cls.
  assert (Hlen : forall k, length (sort_samples (samples k [r1; r2])) = 2%nat).
  { intros k. now rewrite sort_samples_length. }
  assert (Hd : NoDup (map (fun r => nth 0 r 0) [r1; r2])).
  { cbn [map]. repeat constructor; cbn [In]; intuition. }
  assert (Hlt : forall k,
             fst (nth 0 (sort_samples (samples k [r1; r2])) (0, 0))
             <> fst (nth 1 (sort_samples (samples k [r1; r2])) (0, 0))).
  { intros k.
    pose proof (strict_nth_lt _ 0 1 (sort_samples_strict k _ Hd)
                  ltac:(lia) ltac:(rewrite Hlen; lia)).
    lra. }
  split; (split; [apply line_through_extension; apply Hlt |]);
    apply (call_linear_segment _ mach 1);
    [unfold cds | unfold cls]; rewrite Hlen; lia.
Qed.

End PiecewiseLinear.

(** * Further properties of one step *)

Section StepForces.

Import Projectile ProjectileTrace.

Variables (cfg : Config.t) (target_pos : Vec3) (s : Projectile.t).

Let l : Locals := fst (update_locals cfg target_pos s).

(** The locals of one pass, spelled out. *)
Lemma locals_spelled_out :
  rho (atm l) = 1.225 * exp (- getitem (pos s) 1 / 8500.0) /\
  speed (atm l) = norm (vel s) /\
  mach (atm l) = norm (vel s) / 340.0 /\
  Cd (frc l) = AeroDatabase.get_cd (aero s) (norm (vel s) / 340.0) /\
  Cl (frc l) =
    AeroDatabase.get_cl_alpha (aero s) (norm (vel s) / 340.0)
    * alpha_cmd (gd l) /\
  q (frc l) = 0.5 * rho (atm l) * speed (atm l) ^ 2 * Config.area cfg /\
  F_drag (frc l) = q (frc l) * Cd (frc l) /\
  F_lift (frc l) = q (frc l) * Cl (frc l) /\
  gamma (inr l) = arctan2 (getitem (vel s) 1) (getitem (vel s) 0) /\
  fx_aero (inr l) =
    - F_drag (frc l) * cos (gamma (inr l))
    - F_lift (frc l) * sin (gamma (inr l)) /\
  fy_aero (inr l) =
    - F_drag (frc l) * sin (gamma (inr l))
    + F_lift (frc l) * cos (gamma (inr l)).
Proof. repeat split; reflexivity. Qed.

Lemma dynamic_pressure_nonneg : 0 <= Config.area cfg -> 0 <= q (frc l).
Proof.
  intros Ha.
  destruct locals_spelled_out as (Hrho & _ & _ & _ & _ & Hq & _).
  rewrite Hq, Hrho.
  pose proof (exp_pos (- getitem (pos s) 1 / 8500.0)) as He.
  pose proof (pow2_ge_0 (speed (atm l))) as Hs.
  apply Rmult_le_pos; [| exact Ha].
  apply Rmult_le_pos; [lra | exact Hs].
Qed.

(** X6: the aerodynamic force the step resolves on the inertial axes is the
    pair (drag, lift) rotated by the flight-path angle: its component along
    the velocity direction is minus the drag, its component along the
    direction turned a quarter turn from it is the lift, and its squared
    magnitude is drag squared plus lift squared. *)
Theorem force_resolution_is_rotation :
  let g := gamma (inr l) in
  fx_aero (inr l) * cos g + fy_aero (inr l) * sin g = - F_drag (frc l) /\
  fy_aero (inr l) * cos g - fx_aero (inr l) * sin g = F_lift (frc l) /\
  fx_aero (inr l) ^ 2 + fy_aero (inr l) ^ 2
    = F_drag (frc l) ^ 2 + F_lift (frc l) ^ 2.
Proof.
  intros g.
  destruct locals_spelled_out
    as (_ & _ & _ & _ & _ & _ & _ & _ & _ & Hfx & Hfy).
  fold g in Hfx, Hfy. rewrite Hfx, Hfy.
  pose proof (sin2_cos2 g) as Hsc. unfold Rsqr in Hsc.
  set (D := F_drag (frc l)). set (L := F_lift (frc l)).
  set (c := cos g) in *. set (sn := sin g) in *.
  split; [| split].
  - replace ((- D * c - L * sn) * c + (- D * sn + L * c) * sn)
      with (- D * (sn * sn + c * c)) by ring.
    rewrite Hsc. ring.
  - replace ((- D * sn + L * c) * c - (- D * c - L * sn) * sn)
      with (L * (sn * sn + c * c)) by ring.
    rewrite Hsc. ring.
  - replace ((- D * c - L * sn) ^ 2 + (- D * sn + L * c) ^ 2)
      with ((D ^ 2 + L ^ 2) * (sn * sn + c * c)) by ring.
    rewrite Hsc. ring.
Qed.

Lemma clip_sign (a r : R) :
  0 <= r ->
  (0 <= a -> 0 <= clip a (- r) r) /\ (a <= 0 -> clip a (- r) r <= 0).
Proof.
  intros Hr. unfold clip, Rmin, Rmax.
  destruct (Rle_dec a (- r)); [destruct (Rle_dec (- r) r)
                              | destruct (Rle_dec a r)];
    split; intros; lra.
Qed.

(** X7: with a lift slope and a reference area that are not negative, the
    lift force has the sign of the pointing error: it is not negative when
    the line of sight lies at or above the flight-path angle, and not
    positive when it lies at or below. *)
Theorem lift_follows_pointing_error :
  0 <= AeroDatabase.get_cl_alpha (aero s) (norm (vel s) / 340.0) ->
  0 <= Config.area cfg ->
  (vel_angle (gd l) <= los_angle (gd l) -> 0 <= F_lift (frc l)) /\
  (los_angle (gd l) <= vel_angle (gd l) -> F_lift (frc l) <= 0).
Proof.
  intros Hcl Ha.
  pose proof (dynamic_pressure_nonneg Ha) as Hq.
  destruct locals_spelled_out as (_ & _ & _ & _ & HCl & _ & _ & HL & _).
  rewrite HL, HCl.
  pose proof radians_10_bounds as Hr.
  destruct (clip_sign (3.0 * (los_angle (gd l) - vel_angle (gd l)))
              (radians 10)) as [Hpos Hneg]; [lra |].
  change (alpha_cmd (gd l))
    with (clip (3.0 * (los_angle (gd l) - vel_angle (gd l)))
               (- radians 10) (radians 10)).
  set (al := clip _ _ _) in *.
  set (k := AeroDatabase.get_cl_alpha (aero s) (norm (vel s) / 340.0)) in *.
  split; intros He.
  - assert (0 <= al) by (apply Hpos; lra).
    apply Rmult_le_pos; [exact Hq | now apply Rmult_le_pos].
  - assert (al <= 0) by (apply Hneg; lra).
    assert (k * al <= 0) by nra. nra.
Qed.

End StepForces.

Section StepEdges.

Import Projectile ProjectileTrace.

Variables (cfg : Config.t) (dt : R).

Lemma zero_lift_force (target_pos : Vec3) (s : Projectile.t) :
  AeroDatabase.get_cl_alpha (aero s) (norm (vel s) / 340.0) = 0 ->
  let l := fst (update_locals cfg target_pos s) in
  let g := arctan2 (getitem (vel s) 1) (getitem (vel s) 0) in
  let Fdrag :=
    0.5 * (1.225 * exp (- getitem (pos s) 1 / 8500.0)) * norm (vel s) ^ 2
    * Config.area cfg * AeroDatabase.get_cd (aero s) (norm (vel s) / 340.0) in
  fx_aero (inr l) = - Fdrag * cos g /\ fy_aero (inr l) = - Fdrag * sin g.
Proof.
  intros Hcl l g Fdrag.
  destruct (locals_spelled_out cfg target_pos s)
    as (Hrho & Hsp & _ & HCd & HCl & Hq & HD & HL & Hg & Hfx & Hfy).
  fold l in Hrho, Hsp, HCd, HCl, Hq, HD, HL, Hg, Hfx, Hfy.
  rewrite Hcl in HCl.
  assert (HL0 : F_lift (frc l) = 0) by (rewrite HL, HCl; ring).
  assert (HD0 : F_drag (frc l) = Fdrag).
  { rewrite HD, Hq, Hrho, Hsp, HCd. reflexivity. }
  rewrite Hfx, Hfy, HL0, HD0, Hg. fold g. split; ring.
Qed.

(** X8: at a Mach number where the lift slope is zero the guidance has no
    effect: the step is the same whatever the target, and the force is the
    drag alone, opposite to the velocity direction. *)
Theorem zero_lift_slope_ignores_target
    (s : Projectile.t) (target_pos target_pos' : Vec3) :
  AeroDatabase.get_cl_alpha (aero s) (norm (vel s) / 340.0) = 0 ->
  update cfg dt target_pos s = update cfg dt target_pos' s /\
  (let l := fst (update_locals cfg target_pos s) in
   fx_aero (inr l) = - F_drag (frc l) * cos (gamma (inr l)) /\
   fy_aero (inr l) = - F_drag (frc l) * sin (gamma (inr l))).
Proof.
  intros Hcl. split.
  - destruct (Rlt_dec (getitem (pos s) 1) 0) as [Hlt | Hge].
    + now rewrite !update_crashed.
    + rewrite !update_flying by exact Hge. f_equal.
      rewrite !integration_state.
      destruct (zero_lift_force target_pos s Hcl) as [-> ->].
      destruct (zero_lift_force target_pos' s Hcl) as [-> ->].
      reflexivity.
  - intros l.
    destruct (locals_spelled_out cfg target_pos s)
      as (_ & _ & _ & _ & HCl & _ & _ & HL & _ & Hfx & Hfy).
    fold l in HCl, HL, Hfx, Hfy. rewrite Hcl in HCl.
    assert (HL0 : F_lift (frc l) = 0) by (rewrite HL, HCl; ring).
    rewrite Hfx, Hfy, HL0. split; ring.
Qed.

Lemma norm_zero : norm (mkVec3 0 0 0) = 0.
Proof.
  unfold norm. cbn [c0 c1 c2].
  replace (0 * 0 + 0 * 0 + 0 * 0) with 0 by ring. apply sqrt_0.
Qed.

(** X9: a projectile at rest at or above ground feels no aerodynamic force,
    whatever the table and the target: the step only lets it fall, to the
    vertical velocity [- g dt] and the altitude [y - g dt dt]. *)
Theorem update_at_rest (target_pos : Vec3) (s : Projectile.t) :
  vel s = mkVec3 0 0 0 ->
  ~ getitem (pos s) 1 < 0 ->
  let s' := snd (update cfg dt target_pos s) in
  fst (update cfg dt target_pos s) = true /\
  vel s' = mkVec3 0 (- Config.g cfg * dt) 0 /\
  pos s' = mkVec3 (getitem (pos s) 0)
                  (getitem (pos s) 1 - Config.g cfg * dt * dt)
                  (getitem (pos s) 2).
Proof.
  intros Hv Hge s'. unfold s'.
  rewrite (update_flying cfg dt target_pos s Hge). cbn [fst snd].
  split; [reflexivity |].
  rewrite integration_state.
  destruct (locals_spelled_out cfg target_pos s)
    as (_ & Hsp & _ & _ & _ & Hq & HD & HL & _ & Hfx & Hfy).
  rewrite Hv, norm_zero in Hsp.
  assert (Hq0 : q (frc (fst (update_locals cfg target_pos s))) = 0)
    by (rewrite Hq, Hsp; ring).
  rewrite Hq0 in HD, HL. rewrite HD, HL in Hfx, Hfy.
  rewrite Hfx, Hfy, Hv. cbn [pos vel c0 c1 c2 getitem].
  split; f_equal; unfold Rdiv; ring.
Qed.

(** A step with a zero time step changes nothing. *)
Lemma update_zero_dt (target_pos : Vec3) (s : Projectile.t) :
  ~ getitem (pos s) 1 < 0 ->
  update cfg 0 target_pos s = (true, s).
Proof.
  intros Hge. rewrite (update_flying cfg 0 target_pos s Hge). f_equal.
  rewrite integration_state.
  destruct s as [[x y z] [vx vy vz] qt a]. cbn [pos vel quat aero c0 c1 c2].
  f_equal; f_equal; ring.
Qed.

(** A step on zero coefficient curves. *)
Lemma update_no_aero (target_pos : Vec3) (s : Projectile.t) :
  (forall x, AeroDatabase.get_cd (aero s) x = 0) ->
  (forall x, AeroDatabase.get_cl_alpha (aero s) x = 0) ->
  ~ getitem (pos s) 1 < 0 ->
  snd (update cfg dt target_pos s) =
    Projectile.mk
      (mkVec3 (c0 (pos s) + c0 (vel s) * dt)
              (c1 (pos s) + (c1 (vel s) - Config.g cfg * dt) * dt)
              (c2 (pos s)))
      (mkVec3 (c0 (vel s)) (c1 (vel s) - Config.g cfg * dt) (c2 (vel s)))
      (quat s) (aero s).
Proof.
  intros Hcd Hcl Hge.
  rewrite (update_flying cfg dt target_pos s Hge). cbn [snd].
  rewrite integration_state.
  destruct (locals_spelled_out cfg target_pos s)
    as (_ & _ & _ & HCd & HCl & _ & HD & HL & _ & Hfx & Hfy).
  rewrite Hcd in HCd. rewrite Hcl in HCl.
  rewrite HCd in HD. rewrite HCl in HL.
  rewrite HD, HL in Hfx, Hfy. rewrite Hfx, Hfy.
  f_equal; f_equal; unfold Rdiv; ring.
Qed.

End StepEdges.

(** * Further properties of the flight and of the loop *)

Section Flight.

Import Projectile.

Variable config : Config.t.

Lemma update_keeps (dt : R) (target_pos : Vec3) (s : Projectile.t) :
  let s' := snd (update config dt target_pos s) in
  c2 (pos s') = c2 (pos s) /\ c2 (vel s') = c2 (vel s) /\
  quat s' = quat s /\ aero s' = aero s.
Proof.
  destruct (Rlt_dec (getitem (pos s) 1) 0) as [Hlt | Hge].
  - rewrite (update_crashed config dt target_pos s Hlt). cbn. auto.
  - rewrite (update_flying config dt target_pos s Hge). cbn [snd].
    rewrite integration_state. cbn. auto.
Qed.

Lemma flight_aero (m : Projectile.t) (n : nat) :
  aero (flight config m n) = aero m.
Proof.
  induction n as [| n IH]; [reflexivity |].
  cbn [flight]. rewrite <- IH. apply update_keeps.
Qed.

(** X10: however many steps are taken, the third component of the
    position and of the velocity, the quaternion and the coefficient
    database of the projectile stay those it started with. *)
Theorem flight_keeps_frame (m : Projectile.t) (n : nat) :
  getitem (pos (flight config m n)) 2 = getitem (pos m) 2 /\
  getitem (vel (flight config m n)) 2 = getitem (vel m) 2 /\
  quat (flight config m n) = quat m /\
  aero (flight config m n) = aero m.
Proof.
  induction n as [| n (Hp & Hv & Hq & Ha)]; [auto |].
  cbn [flight getitem] in *.
  destruct (update_keeps (Config.dt config) (Config.target_pos config)
              (flight config m n)) as (Hp' & Hv' & Hq' & Ha').
  rewrite Hp', Hv', Hq', Ha'. auto.
Qed.

(** X11: on coefficient curves that are zero everywhere the flight is the
    closed form of the integration scheme, as long as every step so far
    started at or above ground: the horizontal velocity is constant, the
    vertical one has lost [n g dt], the downrange position has advanced by
    [n vx dt], and the altitude is [y + n vy dt - g dt dt n (n + 1) / 2]. *)
Theorem drag_free_flight (m : Projectile.t) (n : nat) :
  (forall x, AeroDatabase.get_cd (aero m) x = 0) ->
  (forall x, AeroDatabase.get_cl_alpha (aero m) x = 0) ->
  (forall k, (k < n)%nat -> flying_at config m k = true) ->
  let p := flight config m n in
  let g := Config.g config in
  let dt := Config.dt config in
  getitem (vel p) 0 = getitem (vel m) 0 /\
  getitem (vel p) 1 = getitem (vel m) 1 - INR n * g * dt /\
  getitem (pos p) 0 = getitem (pos m) 0 + INR n * getitem (vel m) 0 * dt /\
  getitem (pos p) 1 =
    getitem (pos m) 1 + INR n * getitem (vel m) 1 * dt
    - g * dt * dt * (INR n * (INR n + 1) / 2).
Proof.
  intros Hcd Hcl. induction n as [| n IH]; intros Hfly p g dt.
  - subst p. cbn [flight INR]. repeat split; lra.
  - destruct IH as (Hv0 & Hv1 & Hp0 & Hp1); [intros k Hk; apply Hfly; lia |].
    pose proof (Hfly n ltac:(lia)) as Hn. unfold flying_at in Hn.
    apply update_true_iff in Hn.
    subst p. cbn [flight].
    rewrite update_no_aero; try exact Hn;
      try (intros x; rewrite flight_aero; auto).
    cbn [pos vel getitem c0 c1] in *. subst g dt.
    rewrite Hv0, Hv1, Hp0, Hp1, S_INR.
    repeat split; field.
Qed.

End Flight.

Section Runs.

Variable config : Config.t.

Lemma run_loop_zero_dt (fuel : nat) (st : Sim) :
  Config.dt config = 0 ->
  t st < Config.max_time config ->
  ~ getitem (Projectile.pos (missile st)) 1 < 0 ->
  run_loop fuel config st = None.
Proof.
  intros Hdt. revert st. induction fuel as [| fuel IH]; intros st Ht Hge;
    [reflexivity |].
  assert (Hstep : Projectile.update config (Config.dt config)
                    (Config.target_pos config) (missile st)
                  = (true, missile st)).
  { rewrite Hdt. now apply update_zero_dt. }
  rewrite run_loop_S, while_step_continue;
    [| exact Ht | now rewrite Hstep].
  rewrite Hstep. cbn [snd]. rewrite IH; [reflexivity | |].
  - cbn. lra.
  - exact Hge.
Qed.

(** X12: the time step is not validated.  With a time step of zero, a
    positive time budget and a projectile at or above ground, the loop
    never ends: no bound on the number of header evaluations is enough. *)
Theorem zero_time_step_never_ends (m : Projectile.t) (fuel : nat) :
  Config.dt config = 0 ->
  0 < Config.max_time config ->
  ~ getitem (Projectile.pos m) 1 < 0 ->
  run_from fuel config m = None.
Proof.
  intros Hdt Hmax Hge. unfold run_from.
  apply run_loop_zero_dt; [exact Hdt | exact Hmax | exact Hge].
Qed.

Lemma nth_map_seq (f : nat -> R) (n i : nat) (d : R) :
  (i < n)%nat -> nth i (map f (seq 1 n)) d = f (S i).
Proof.
  intros Hi. rewrite (nth_indep _ d (f O)).
  - rewrite map_nth, seq_nth by exact Hi. reflexivity.
  - now rewrite length_map, length_seq.
Qed.

(** X13: every recorded altitude but the last is at or above zero, and in
    a run that ends by impact the last recorded altitude is below zero: the
    step that crosses the ground is recorded before the next call to
    [update] reports the impact. *)
Theorem crossing_step_is_recorded
    (m : Projectile.t) (fuel : nat) (r : Run) :
  run_from fuel config m = Some r ->
  let ys := hist_y (history (final r)) in
  (forall i, (S i < length ys)%nat -> 0 <= nth i ys 0) /\
  (exit r = Impact ->
     forall i, S i = length ys -> nth i ys 0 < 0).
Proof.
  intros Hr ys. unfold run_from in Hr.
  destruct (run_loop_trace config fuel _ r Hr)
    as (n & _ & _ & _ & Hh & Hk & He).
  cbn [t missile history] in Hh, Hk, He.
  rewrite hist_app_empty in Hh.
  assert (Hys : ys = map (fun k =>
                   getitem (Projectile.pos (flight config m k)) 1) (seq 1 n)).
  { unfold ys. rewrite Hh. reflexivity. }
  assert (Hlen : length ys = n) by (rewrite Hys, length_map, length_seq; auto).
  rewrite Hlen. split.
  - intros i Hi. rewrite Hys, nth_map_seq by lia.
    destruct (Hk (S i) Hi) as [_ Hf]. unfold flying_at in Hf.
    apply update_true_iff in Hf. now apply Rnot_lt_le.
  - intros Hx i Hi. rewrite Hx in He. destruct He as [_ Hf].
    rewrite Hys, nth_map_seq by lia. rewrite Hi.
    unfold flying_at in Hf. now apply update_false_below in Hf.
Qed.

(** X14: two runs that take no step.  With a time budget that is not
    positive the loop body is never entered: no call to [update], an empty
    history.  With a positive budget and a projectile that starts below
    ground the first call reports the impact: one call, an empty history,
    the projectile untouched. *)
Theorem run_without_steps (m : Projectile.t) (fuel : nat) :
  (Config.max_time config <= 0 ->
     run_from (S fuel) config m =
       Some (mkRun [] Timeout (mkSim 0 m (mkHistory [] [] [])))) /\
  (0 < Config.max_time config ->
   getitem (Projectile.pos m) 1 < 0 ->
     run_from (S fuel) config m =
       Some (mkRun [false] Impact (mkSim 0 m (mkHistory [] [] [])))).
Proof.
  unfold run_from. split.
  - intros Hmax. rewrite run_loop_S, while_step_exhausted; [reflexivity |].
    cbn. lra.
  - intros Hmax Hlt. rewrite run_loop_S, while_step_break; [reflexivity | |].
    + exact Hmax.
    + cbn [missile]. now rewrite update_crashed.
Qed.

End Runs.

Section Program.

(** X15: whatever the table file holds, the program's run ends, and the
    history it returns has at least one sample and at most 10000, the three
    lists being of one length. *)
Theorem run_simulation_sample_count (src : genfromtxt_result) :
  exists fuel hist,
    run_simulation fuel src = Some hist /\
    (1 <= length (hist_x hist) <= 100 * 100)%nat /\
    length (hist_y hist) = length (hist_x hist) /\
    length (hist_mach hist) = length (hist_x hist).
Proof.
  destruct (run_from_ends Config.default (Projectile.init src))
    as (fuel & r & Hr); [cbn; lra |].
  exists fuel, (history (final r)). unfold run_simulation. rewrite Hr.
  split; [reflexivity |].
  unfold run_from in Hr.
  destruct (run_loop_trace Config.default fuel _ r Hr)
    as (n & _ & _ & _ & Hh & Hk & He).
  cbn [t missile history] in Hh, Hk, He. rewrite hist_app_empty in Hh.
  destruct (trajectory_length Config.default (Projectile.init src) n)
    as (Hx & Hy & Hm).
  rewrite Hh, Hx, Hy, Hm. split; [| auto].
  split.
  - destruct n as [| n]; [| lia]. exfalso. cbn [INR] in He.
    destruct (exit r).
    + destruct He as [_ Hf]. unfold flying_at in Hf. cbn [flight] in Hf.
      apply update_false_below in Hf. cbn in Hf. lra.
    + cbn in He. lra.
  - destruct (Nat.le_gt_cases n (100 * 100)) as [Hle | Hgt]; [exact Hle |].
    exfalso. destruct (Hk (100 * 100)%nat Hgt) as [Ht _].
    rewrite mult_INR in Ht.
    replace (INR 100) with 100 in Ht by (cbn; lra).
    cbn in Ht. lra.
Qed.

End Program.

(** * The further properties on concrete inputs *)

Section FurtherInstances.

Import Projectile ProjectileTrace.

Let tab3 : list (list R) :=
  [[1.0; 0; 0.3; 2.0]; [2.0; 5; 0.5; 2.5]; [3.0; 10; 0.4; 3.0]].

Lemma tab3_distinct : NoDup (map (fun r => nth 0 r 0) tab3).
Proof.
  cbn [tab3 map nth]. repeat constructor; cbn [In]; intuition lra.
Qed.

(** The three-row table is kept. *)
Lemma table_loads_three_rows :
  exists db, AeroDatabase.load (Loaded tab3) = Some db.
Proof.
  apply (proj2 (table_loads_iff tab3)). split.
  - cbn. lia.
  - repeat constructor; cbn; lia.
Defined.

(** Other angles of attack and a fifth column in every row: the same
    database. *)
Lemma alpha_column_unused_instance :
  AeroDatabase.init (Loaded [[1.0; 0; 0.3; 2.0]; [2.0; 5; 0.5; 2.5]])
  = AeroDatabase.init
      (Loaded [[1.0; 7; 0.3; 2.0; 9]; [2.0; 8; 0.5; 2.5; 4]]).
Proof.
  apply alpha_column_unused.
  - exists 4%nat. repeat constructor.
  - exists 5%nat. repeat constructor.
  - repeat constructor.
Defined.

(** At Mach 2.0 the getters return the second row's coefficients. *)
Lemma interpolants_reproduce_second_row :
  AeroDatabase.get_cd (AeroDatabase.init (Loaded tab3)) 2.0 = 0.5 /\
  AeroDatabase.get_cl_alpha (AeroDatabase.init (Loaded tab3)) 2.0 = 2.5.
Proof.
  apply (interpolants_reproduce_table tab3 (AeroDatabase.init (Loaded tab3))
           [2.0; 5; 0.5; 2.5]).
  - reflexivity.
  - exact tab3_distinct.
  - right. left. reflexivity.
Defined.

(** Half way between Mach 2.0 and 3.0 the drag is half way between 0.5 and
    0.4. *)
Lemma interpolant_at_mach_2_5 :
  AeroDatabase.get_cd (AeroDatabase.init (Loaded tab3)) 2.5 = 0.45.
Proof.
  destruct (interpolant_between_samples tab3
              (AeroDatabase.init (Loaded tab3)) 2.5 1 eq_refl tab3_distinct)
    as [Hcd _].
  - cbn. lia.
  - unfold tab3. rewrite table3_sorted. cbn [nth fst]. lra.
  - rewrite Hcd. unfold tab3. rewrite table3_sorted.
    unfold line_through. cbn [nth fst snd]. lra.
Defined.

(** The first two rows exchanged: the same database. *)
Lemma row_order_irrelevant_instance :
  AeroDatabase.init (Loaded tab3)
  = AeroDatabase.init
      (Loaded [[2.0; 5; 0.5; 2.5]; [1.0; 0; 0.3; 2.0]; [3.0; 10; 0.4; 3.0]]).
Proof.
  apply row_order_irrelevant.
  - apply perm_swap.
  - exact tab3_distinct.
Defined.

(** Two rows: the drag at Mach 5.0 lies on the line through them. *)
Lemma two_row_table_instance :
  AeroDatabase.get_cd
    (AeroDatabase.init (Loaded [[1.0; 0; 0.3; 2.0]; [2.0; 5; 0.5; 2.5]])) 5.0
  = 1.1.
Proof.
  destruct (two_row_table_is_one_line [1.0; 0; 0.3; 2.0] [2.0; 5; 0.5; 2.5]
              (AeroDatabase.init
                 (Loaded [[1.0; 0; 0.3; 2.0]; [2.0; 5; 0.5; 2.5]]))
              5.0 eq_refl) as [[_ Hcd] _].
  - cbn [nth]. lra.
  - rewrite Hcd.
    cbn [samples map nth sort_samples fold_right insert_sample fst].
    destruct (Rle_dec 1.0 2.0) as [_ | Hn]; [| exfalso; lra].
    unfold line_through. cbn [nth fst snd]. lra.
Defined.

Let launch : Projectile.t := Projectile.init Raised.

(** At launch the target lies below the flight path: the lift points
    down. *)
Lemma lift_at_launch :
  F_lift (frc (fst (update_locals Config.default
                      (Config.target_pos Config.default) launch))) <= 0.
Proof.
  apply (lift_follows_pointing_error Config.default
           (Config.target_pos Config.default) launch).
  - cbn. lra.
  - cbn [Config.area Config.default]. pose proof PI_RGT_0.
    apply Rmult_le_pos; [lra |]. apply pow_le. lra.
  - destruct (guidance_reads (Config.target_pos Config.default) launch).
    cbn [los_angle vel_angle gd update_locals bind atmosphere guidance forces
         transformations self_pos self_vel self_aero ret fst snd].
    cbn [launch Projectile.init pos vel getitem vsub c0 c1 Config.target_pos
         Config.default].
    rewrite arctan2_level by lra.
    unfold arctan2. destruct (Rlt_dec 0 (15000 - 0)) as [_ | Hn]; [| lra].
    pose proof (atan_increasing ((500 - 2000) / (15000 - 0)) 0) as Hat.
    rewrite atan_0 in Hat. apply Rlt_le, Hat.
    unfold Rdiv. assert (0 < / (15000 - 0)) by (apply Rinv_0_lt_compat; lra).
    nra.
Defined.

(** A projectile whose lift slope is zero steps the same way for two
    targets. *)
Lemma zero_lift_two_targets :
  let s := Projectile.mk (mkVec3 0 2000 0) (mkVec3 680 0 0) (0, 0, 0, 1)
             (AeroDatabase.mk (fun _ => 0.3) (fun _ => 0)) in
  update Config.default 0.01 (mkVec3 15000 500 0) s
  = update Config.default 0.01 (mkVec3 0 3000 0) s.
Proof.
  intros s.
  apply (zero_lift_slope_ignores_target Config.default 0.01 s
           (mkVec3 15000 500 0) (mkVec3 0 3000 0)).
  reflexivity.
Defined.

(** Dropped from rest at 2000 m. *)
Lemma dropped_from_rest :
  let s := Projectile.mk (mkVec3 0 2000 0) (mkVec3 0 0 0) (0, 0, 0, 1)
             (AeroDatabase.init Raised) in
  vel (snd (update Config.default 0.01 (mkVec3 15000 500 0) s))
  = mkVec3 0 (0 - 9.81 * 0.01) 0.
Proof.
  intros s.
  destruct (update_at_rest Config.default 0.01 (mkVec3 15000 500 0) s)
    as (_ & Hv & _).
  - reflexivity.
  - cbn. lra.
  - rewrite Hv. f_equal. cbn [Config.g Config.default]. lra.
Defined.

Let glider : Projectile.t :=
  Projectile.mk (mkVec3 0 2000 0) (mkVec3 680 0 0) (0, 0, 0, 1)
    (AeroDatabase.mk (fun _ => 0) (fun _ => 0)).

(** Two steps without aerodynamic force from 2000 m. *)
Lemma drag_free_two_steps :
  getitem (pos (flight Config.default glider 2)) 0 = 2 * 680 * 0.01 /\
  getitem (pos (flight Config.default glider 2)) 1
  = 2000 - 9.81 * 0.01 * 0.01 * 3.
Proof.
  destruct (drag_free_flight Config.default glider 2)
    as (_ & _ & Hx & Hy).
  - reflexivity.
  - reflexivity.
  - intros k Hk. unfold flying_at. apply update_true_iff.
    destruct k as [| [| k]]; [| | lia].
    + cbn. lra.
    + cbn [flight]. rewrite update_no_aero; [| reflexivity | reflexivity |];
        cbn; lra.
  - cbn [glider pos vel getitem c0 c1 INR Config.g Config.dt Config.default]
      in Hx, Hy.
    cbn [getitem]. split; [rewrite Hx | rewrite Hy]; lra.
Defined.

(** The program's configuration with the time step set to zero. *)
Lemma zero_time_step_instance :
  run_from 7
    (Config.mk 0 100 9.81 43.5 0.155 (PI * (0.155 / 2) ^ 2)
       (mkVec3 15000 500 0))
    launch = None.
Proof.
  apply zero_time_step_never_ends.
  - reflexivity.
  - cbn. lra.
  - cbn. lra.
Defined.

Let skimmer : Projectile.t :=
  Projectile.mk (mkVec3 0 0 0) (mkVec3 680 0 0) (0, 0, 0, 1)
    (AeroDatabase.mk (fun _ => 0) (fun _ => 0)).

Lemma skimmer_run :
  exists st,
    run_from 2 Config.default skimmer = Some (mkRun [true; false] Impact st) /\
    length (hist_y (history st)) = 1%nat.
Proof.
  assert (H0 : ~ getitem (pos skimmer) 1 < 0) by (cbn; lra).
  assert (H1 : getitem
                 (pos (snd (update Config.default 0.01 (mkVec3 15000 500 0)
                              skimmer))) 1 < 0).
  { rewrite update_no_aero; [| reflexivity | reflexivity | exact H0].
    cbn. lra. }
  eexists. unfold run_from. rewrite run_loop_S.
  rewrite while_step_continue;
    [| cbn; lra | apply update_true_iff; exact H0].
  rewrite run_loop_S. rewrite while_step_break;
    [| cbn; lra | cbn [missile]; now rewrite update_crashed].
  cbn [calls exit final]. split; [reflexivity |]. reflexivity.
Qed.

(** Launched level at zero altitude without aerodynamic force: the one
    sample the run records is below ground. *)
Lemma crossing_step_skimmer :
  exists r,
    run_from 2 Config.default skimmer = Some r /\
    exit r = Impact /\
    nth 0 (hist_y (history (final r))) 0 < 0.
Proof.
  destruct skimmer_run as (st & Hr & Hlen).
  exists (mkRun [true; false] Impact st).
  split; [exact Hr |]. split; [reflexivity |].
  destruct (crossing_step_is_recorded Config.default skimmer 2 _ Hr)
    as [_ Hlast].
  apply Hlast; [reflexivity |]. cbn [final]. now rewrite Hlen.
Defined.

(** A time budget of zero: no call, no sample. *)
Lemma run_without_budget :
  run_from 1
    (Config.mk 0.01 0 9.81 43.5 0.155 (PI * (0.155 / 2) ^ 2)
       (mkVec3 15000 500 0))
    launch
  = Some (mkRun [] Timeout (mkSim 0 launch (mkHistory [] [] []))).
Proof.
  apply (proj1 (run_without_steps _ launch 0)). cbn. lra.
Defined.

End FurtherInstances.
